(** * gradio/event_queue.py: the event queue and its job dispatcher

    A shallow embedding of [Queue] and [Event] from
    [src/gradio/event_queue.py], and the properties of the dispatcher that
    follow from it.

    Conventions of the embedding.
    - The attributes of the class [Queue] (the code keeps all dispatcher
      state in class attributes) are the fields of the record [Queue].
    - An [Event] is a Python object: lists hold references to it, and
      [list.index], [list.remove] and [in] compare events by identity
      ([Event] defines no [__eq__]).  References are [eid]s, the objects
      live in a store [objs], so that the mutation [event.data = ...] is
      seen through every alias.
    - A Python [float] is a binary64 double, held as the rational it
      denotes ([Q]); a rational that is no double stands for the double
      nearest to it.  Every arithmetic operation gives the double nearest
      to the exact result on its operands, ties to the even significand
      ([fl]); [sum] adds from left to right, as CPython does before
      version 3.12; and [round(x, n)] is correctly rounded, as CPython's
      is.  Infinities and NaN have no counterpart here: the clock readings
      and the durations of jobs stay far from the range where a double
      overflows.
    - The websocket, the backend [Request] and [time.time] are external:
      their answers are read from an environment [Env], every call is
      recorded in the [trace].
    - A coroutine is run from one suspension point to its end without
      interleaving ([M World]); interleavings of the tasks are covered at
      the level of the atomic class methods by [call], [exec] and
      [reachable]. *)

From Stdlib Require Import ZArith QArith Qround Qabs Qpower Lqa.
From Stdlib Require Import String List Lia.
From stdpp Require Import base tactics option list functions.
Import ListNotations.

Local Open Scope Z_scope.

(** ** Python values and built-ins *)

#[warnings="-register-all"]
Inductive json :=
| JNull
| JBool (b : bool)
| JNum (q : Q)
| JStr (s : string)
| JArr (items : list json)
| JObj (fields : list (string * json)).

(** [bool(x)]: [None], [False], zero and empty containers are falsy. *)
Definition truthy (x : json) : bool :=
  match x with
  | JNull => false
  | JBool b => b
  | JNum q => negb (Qeq_bool q 0)
  | JStr s => negb (String.eqb s EmptyString)
  | JArr l => negb (Nat.eqb (length l) 0)
  | JObj l => negb (Nat.eqb (length l) 0)
  end.

(** The exceptions of the queue; [RuntimeError] is what
    [websocket.close] raises on a connection that cannot be closed. *)
Inductive exn :=
| ValueError
| IndexError
| ZeroDivisionError
| RuntimeError.

(** A state monad in which a raised exception keeps the state reached so
    far, as a Python exception does. *)
Inductive result (S A : Type) :=
| Ret (a : A) (s : S)
| Raise (ex : exn) (s : S).
Arguments Ret {S A} a s.
Arguments Raise {S A} ex s.

Definition M (S A : Type) : Type := S -> result S A.

Definition ret {S A} (a : A) : M S A := fun s => Ret a s.
Definition raise {S A} (ex : exn) : M S A := fun s => Raise ex s.
Definition bind {S A B} (m : M S A) (k : A -> M S B) : M S B :=
  fun s => match m s with
           | Ret a s' => k a s'
           | Raise ex s' => Raise ex s'
           end.
Definition gets {S A} (f : S -> A) : M S A := fun s => Ret (f s) s.
Definition modify {S} (f : S -> S) : M S unit := fun s => Ret tt (f s).

(** [try: m except ValueError: pass] *)
Definition try_except_ValueError {S} (m : M S unit) : M S unit :=
  fun s => match m s with
           | Raise ValueError s' => Ret tt s'
           | r => r
           end.

Definition final {S A} (r : result S A) : S :=
  match r with Ret _ s => s | Raise _ s => s end.

Definition returned {S A} (r : result S A) : bool :=
  match r with Ret _ _ => true | Raise _ _ => false end.

Declare Scope py_scope.
Delimit Scope py_scope with py.
Notation "x <- m ;; k" := (bind m (fun x => k))
  (at level 100, m at next level, right associativity) : py_scope.
Notation "m ;;; k" := (bind m (fun _ => k))
  (at level 100, right associativity) : py_scope.

Section PyList.
Context {A : Type} `{EqDecision A}.

(** [l.index(x)]: position of the first occurrence; [None] stands for
    [ValueError]. *)
Fixpoint py_index (x : A) (l : list A) : option nat :=
  match l with
  | [] => None
  | y :: l' => if decide (y = x) then Some 0%nat
               else S <$> py_index x l'
  end.

(** [l.remove(x)]: drops the first occurrence; [None] stands for
    [ValueError]. *)
Fixpoint py_remove (x : A) (l : list A) : option (list A) :=
  match l with
  | [] => None
  | y :: l' => if decide (y = x) then Some l'
               else cons y <$> py_remove x l'
  end.

(** [x in l] *)
Definition py_in (x : A) (l : list A) : bool := bool_decide (x ∈ l).

(** [l[:n]], also for negative [n]. *)
Definition py_slice_to (n : Z) (l : list A) : list A :=
  if 0 <=? n then take (Z.to_nat n) l
  else take (Z.to_nat (Z.of_nat (length l) + n)) l.

(** [[x] * n] *)
Definition py_repeat (x : A) (n : Z) : list A := replicate (Z.to_nat n) x.
End PyList.

(** [round(x)] to the nearest integer, ties to the even one. *)
Definition round_half_even (x : Q) : Z :=
  let f := Qfloor x in
  match (x - inject_Z f ?= 1 # 2)%Q with
  | Lt => f
  | Gt => f + 1
  | Eq => if Z.even f then f else f + 1
  end.

(** ** Python's [float]: binary64 arithmetic *)

(** The exponent [b] of the binade of [x <> 0]:
    [2 ^ b <= |x| < 2 ^ (b + 1)]. *)
Definition binade (x : Q) : Z :=
  let a := Z.abs (Qnum x) in
  let l := Z.log2 a - Z.log2 (Zpos (Qden x)) in
  if Qle_bool (2 ^ l) (a # Qden x) then l else l - 1.

(** The double nearest to [x], ties to the even significand.  A double
    has a significand of 53 bits, and its last bit weighs [2 ^ -1074] at
    least, which makes the doubles below [2 ^ -1022] subnormal.  The
    largest double is not modelled: where Python gives [inf] or an
    [OverflowError], [fl] gives the number that an unbounded exponent
    would. *)
Definition fl (x : Q) : Q :=
  let x := Qred x in
  if Qnum x =? 0 then 0%Q
  else
    let e := Z.max (binade x - 52) (-1074) in
    Qred (inject_Z (round_half_even (x / 2 ^ e)) * 2 ^ e).

(** [x + y], [x - y] and [x / y] on floats ([y] is not zero): the
    operands are doubles, and so is the result. *)
Definition fadd (x y : Q) : Q := fl (fl x + fl y).
Definition fsub (x y : Q) : Q := fl (fl x - fl y).
Definition fdiv (x y : Q) : Q := fl (fl x / fl y).

(** The float that an [int] operand of a float operation becomes. *)
Definition float_of_int (n : Z) : Q := fl (inject_Z n).

(** [round(x, ndigits)] for a float [x] and [ndigits >= 0]: the decimal
    with [ndigits] digits after the point that is nearest to the exact
    value of [x], ties to the even last digit, and then the double nearest
    to that decimal. *)
Definition py_round (x : Q) (ndigits : nat) : Q :=
  fl (Qmake (round_half_even (fl x * inject_Z (10 ^ Z.of_nat ndigits)))
            (Z.to_pos (10 ^ Z.of_nat ndigits))).

(** [sum(l)] for a list of floats: from the [int] 0, adding from left to
    right. *)
Definition py_sum (l : list Q) : Q := fold_left fadd l 0%Q.

(** [str(x)] inside an f-string, for [Optional[str]]. *)
Definition str_of (x : option string) : string :=
  match x with Some s => s | None => "None"%string end.

(** ** The class [Queue] *)

(** A reference to an [Event] object. *)
Definition eid := nat.

Record Queue := mkQueue {
  EVENT_QUEUE : list eid;
  STOP : bool;
  MAX_THREAD_COUNT : Z;
  DATA_GATHERING_STARTS_AT : Z;
  UPDATE_INTERVALS : Z;
  ACTIVE_JOBS : list (option eid);
  SERVER_PATH : option string;
  DURATION_HISTORY_SIZE : Z;
  DURATION_HISTORY : list Q;
  ESTIMATION : Q;
  LIVE_QUEUE_UPDATES : bool
}.

Definition SLEEP_WHEN_FREE : Q := fl (1 # 1000).

(** The class attributes as the class body sets them. *)
Definition Queue_class : Queue :=
  {| EVENT_QUEUE := [];
     STOP := false;
     MAX_THREAD_COUNT := 1;
     DATA_GATHERING_STARTS_AT := 30;
     UPDATE_INTERVALS := 10;
     ACTIVE_JOBS := [None];
     SERVER_PATH := None;
     DURATION_HISTORY_SIZE := 100;
     DURATION_HISTORY := [];
     ESTIMATION := 1;
     LIVE_QUEUE_UPDATES := true |}.

Definition set_EVENT_QUEUE (l : list eid) (q : Queue) : Queue :=
  mkQueue l (STOP q) (MAX_THREAD_COUNT q) (DATA_GATHERING_STARTS_AT q)
    (UPDATE_INTERVALS q) (ACTIVE_JOBS q) (SERVER_PATH q)
    (DURATION_HISTORY_SIZE q) (DURATION_HISTORY q) (ESTIMATION q)
    (LIVE_QUEUE_UPDATES q).

Definition set_STOP (b : bool) (q : Queue) : Queue :=
  mkQueue (EVENT_QUEUE q) b (MAX_THREAD_COUNT q) (DATA_GATHERING_STARTS_AT q)
    (UPDATE_INTERVALS q) (ACTIVE_JOBS q) (SERVER_PATH q)
    (DURATION_HISTORY_SIZE q) (DURATION_HISTORY q) (ESTIMATION q)
    (LIVE_QUEUE_UPDATES q).

Definition set_ACTIVE_JOBS (l : list (option eid)) (q : Queue) : Queue :=
  mkQueue (EVENT_QUEUE q) (STOP q) (MAX_THREAD_COUNT q)
    (DATA_GATHERING_STARTS_AT q) (UPDATE_INTERVALS q) l (SERVER_PATH q)
    (DURATION_HISTORY_SIZE q) (DURATION_HISTORY q) (ESTIMATION q)
    (LIVE_QUEUE_UPDATES q).

Definition set_DURATION_HISTORY (l : list Q) (q : Queue) : Queue :=
  mkQueue (EVENT_QUEUE q) (STOP q) (MAX_THREAD_COUNT q)
    (DATA_GATHERING_STARTS_AT q) (UPDATE_INTERVALS q) (ACTIVE_JOBS q)
    (SERVER_PATH q) (DURATION_HISTORY_SIZE q) l (ESTIMATION q)
    (LIVE_QUEUE_UPDATES q).

Definition set_ESTIMATION (x : Q) (q : Queue) : Queue :=
  mkQueue (EVENT_QUEUE q) (STOP q) (MAX_THREAD_COUNT q)
    (DATA_GATHERING_STARTS_AT q) (UPDATE_INTERVALS q) (ACTIVE_JOBS q)
    (SERVER_PATH q) (DURATION_HISTORY_SIZE q) (DURATION_HISTORY q) x
    (LIVE_QUEUE_UPDATES q).

Local Open Scope py_scope.

(** [Queue.configure_queue] *)
Definition configure_queue (server_path : string) (live_queue_updates : bool)
    (queue_concurrency_count data_gathering_start update_intervals
       duration_history_size : Z) (q : Queue) : Queue :=
  let update_intervals :=
    if negb live_queue_updates && (update_intervals =? 5)
    then 10 else update_intervals in
  {| EVENT_QUEUE := EVENT_QUEUE q;
     STOP := STOP q;
     MAX_THREAD_COUNT := queue_concurrency_count;
     DATA_GATHERING_STARTS_AT := data_gathering_start;
     UPDATE_INTERVALS := update_intervals;
     ACTIVE_JOBS := py_repeat None queue_concurrency_count;
     SERVER_PATH := Some server_path;
     DURATION_HISTORY_SIZE := duration_history_size;
     DURATION_HISTORY := DURATION_HISTORY q;
     ESTIMATION := ESTIMATION q;
     LIVE_QUEUE_UPDATES := live_queue_updates |}.

(** [Queue.close] and [Queue.resume] *)
Definition close : M Queue unit := modify (set_STOP true).
Definition resume : M Queue unit := modify (set_STOP false).

(** [Queue.push] *)
Definition push (event : eid) : M Queue unit :=
  modify (fun q => set_EVENT_QUEUE (EVENT_QUEUE q ++ [event]) q).

(** [Queue.clean_job]: [ACTIVE_JOBS.index(event)] raises [ValueError] when
    the event is in no slot. *)
Definition clean_job (event : eid) : M Queue unit :=
  fun q => match py_index (Some event) (ACTIVE_JOBS q) with
           | Some i => Ret tt (set_ACTIVE_JOBS (<[i := None]> (ACTIVE_JOBS q)) q)
           | None => Raise ValueError q
           end.

(** [EVENT_QUEUE.remove(event)] *)
Definition EVENT_QUEUE_remove (event : eid) : M Queue unit :=
  fun q => match py_remove event (EVENT_QUEUE q) with
           | Some l => Ret tt (set_EVENT_QUEUE l q)
           | None => Raise ValueError q
           end.

(** [Queue.clean_event].  The body of [async with cls.LOCK] has no
    suspension point, here and in [start_processing]: the lock is never
    found taken, and entering it does not suspend. *)
Definition clean_event (event : eid) : M Queue unit :=
  try_except_ValueError (EVENT_QUEUE_remove event).

(** [Queue.update_estimation]: [len(...)] and [cls.MAX_THREAD_COUNT] are
    [int]s, and dividing a float by the [int] 0 raises. *)
Definition update_estimation (duration : Q) : M Queue unit :=
  modify (fun q => set_DURATION_HISTORY (DURATION_HISTORY q ++ [duration]) q) ;;;
  h <- gets DURATION_HISTORY ;;
  size <- gets DURATION_HISTORY_SIZE ;;
  (if size <? Z.of_nat (length h)
   then modify (set_DURATION_HISTORY (tail h))
   else ret tt) ;;;
  h <- gets DURATION_HISTORY ;;
  c <- gets MAX_THREAD_COUNT ;;
  if (length h =? 0)%nat then raise ZeroDivisionError
  else if c =? 0 then raise ZeroDivisionError
  else modify (set_ESTIMATION
         (py_round
            (fadd (fdiv (fdiv (py_sum h) (float_of_int (Z.of_nat (length h))))
                        (float_of_int c))
                  duration) 2)).

(** The pydantic model [Estimation]. *)
Record Estimation := mkEstimation {
  msg : option string;
  queue_size : Z;
  queue_duration : Z
}.

(** What pydantic does with a [float] given for a field declared [int]:
    [int(v)], which drops the fractional part. *)
Definition int_validator (v : Q) : Z := Z.quot (Qnum v) (Zpos (Qden v)).

(** [Queue.get_estimation] *)
Definition get_estimation (q : Queue) : Estimation :=
  {| msg := Some "estimation"%string;
     queue_size := Z.of_nat (length (EVENT_QUEUE q));
     queue_duration := int_validator (ESTIMATION q) |}.

(** [Estimation.dict()] *)
Definition Estimation_dict (e : Estimation) : json :=
  JObj [("msg"%string, match msg e with Some s => JStr s | None => JNull end);
        ("queue_size"%string, JNum (inject_Z (queue_size e)));
        ("queue_duration"%string, JNum (inject_Z (queue_duration e)))].

(** The coroutines that [start_processing] hands to
    [run_coro_in_background]. *)
Inductive coro :=
| ProcessEvent (event : eid)
| GatherDataForFirstRanks
| BroadcastEstimation.

(** One pass through the body of [while not cls.STOP] in
    [Queue.start_processing]. *)
Inductive loop_step :=
| LoopExit
| LoopSleep (seconds : Q)
| LoopAdmit (event : eid) (spawned : list coro).

Definition EVENT_QUEUE_pop0 : M Queue eid :=
  fun q => match EVENT_QUEUE q with
           | event :: l => Ret event (set_EVENT_QUEUE l q)
           | [] => Raise IndexError q
           end.

Definition ACTIVE_JOBS_index (x : option eid) : M Queue nat :=
  fun q => match py_index x (ACTIVE_JOBS q) with
           | Some i => Ret i q
           | None => Raise ValueError q
           end.

Definition start_processing_iter : M Queue loop_step :=
  stop <- gets STOP ;;
  if stop then ret LoopExit else
  pending <- gets EVENT_QUEUE ;;
  if (length pending =? 0)%nat then ret (LoopSleep SLEEP_WHEN_FREE) else
  slots <- gets ACTIVE_JOBS ;;
  if negb (py_in None slots) then ret (LoopSleep 1) else
  event <- EVENT_QUEUE_pop0 ;;
  i <- ACTIVE_JOBS_index None ;;
  modify (fun q => set_ACTIVE_JOBS (<[i := Some event]> (ACTIVE_JOBS q)) q) ;;;
  live <- gets LIVE_QUEUE_UPDATES ;;
  ret (LoopAdmit event
         ([ProcessEvent event; GatherDataForFirstRanks]
          ++ if live then [BroadcastEstimation] else [])).

(** ** [Event] objects, the websocket and the outside world *)

(** A [fastapi.WebSocket] as the queue sees it: whether the n-th call of
    [send_json] returns ([true]) or raises, and what the n-th call of
    [receive_json] returns ([None] when it raises), with the number of
    calls made so far; and whether [close] returns or raises. *)
Record WebSocket := mkWebSocket {
  send_json_returns : nat -> bool;
  receive_json_result : nat -> option json;
  sends : nat;
  receives : nat;
  close_returns : bool
}.

(** The attributes of an [Event]; [data] is [JNull] for [None]. *)
Record Event := mkEvent {
  websocket : WebSocket;
  hash : string;
  data : json
}.

(** The calls that leave the process, in the order they are made.  A
    call of [websocket.close] is recorded whether it returns or raises;
    [Request_POST] comes with what [response.json] holds afterwards. *)
Inductive io :=
| send_json (event : eid) (message : json) (returns : bool)
| receive_json (event : eid) (result : option json)
| websocket_close (event : eid) (code : Z)
| Request_POST (url : string) (body : json) (response_json : option json)
| time_time (t : Q).

(** The backend behind [Request]: the decoded answer to a call, [None]
    when the call fails; and the successive readings of [time.time()]. *)
Record Env := mkEnv {
  backend : string -> json -> option json;
  clock : nat -> Q
}.

Record World := mkWorld {
  cls : Queue;
  objs : eid -> Event;
  trace : list io;
  clock_reads : nat;
  env : Env
}.

Definition set_cls (q : Queue) (w : World) : World :=
  mkWorld q (objs w) (trace w) (clock_reads w) (env w).

Definition set_objs (o : eid -> Event) (w : World) : World :=
  mkWorld (cls w) o (trace w) (clock_reads w) (env w).

Definition log (x : io) (w : World) : World :=
  mkWorld (cls w) (objs w) (trace w ++ [x]) (clock_reads w) (env w).

(** A class method run on the class attributes of the world. *)
Definition on_cls {A} (m : M Queue A) : M World A :=
  fun w => match m (cls w) with
           | Ret a q => Ret a (set_cls q w)
           | Raise ex q => Raise ex (set_cls q w)
           end.

(** The object after a call of [send_json], after a call of
    [receive_json], and after [self.data = d]. *)
Definition sent (ev : Event) : Event :=
  let ws := websocket ev in
  mkEvent (mkWebSocket (send_json_returns ws) (receive_json_result ws)
             (S (sends ws)) (receives ws) (close_returns ws))
          (hash ev) (data ev).

Definition received (ev : Event) : Event :=
  let ws := websocket ev in
  mkEvent (mkWebSocket (send_json_returns ws) (receive_json_result ws)
             (sends ws) (S (receives ws)) (close_returns ws))
          (hash ev) (data ev).

Definition with_data (d : json) (ev : Event) : Event :=
  mkEvent (websocket ev) (hash ev) d.

(** The answer of the websocket to the next [send_json] and to the next
    [receive_json]. *)
Definition next_send (ev : Event) : bool :=
  send_json_returns (websocket ev) (sends (websocket ev)).

Definition next_receive (ev : Event) : option json :=
  receive_json_result (websocket ev) (receives (websocket ev)).

(** [Event.send_message]: [True] when [send_json] returns, [False] when it
    raises anything. *)
Definition send_message (self : eid) (message : json) : M World bool :=
  fun w =>
    let ev := objs w self in
    let ok := next_send ev in
    Ret ok (log (send_json self message ok)
              (set_objs (<[self := sent ev]> (objs w)) w)).

(** [Event.get_message]: the received value, [None] when [receive_json]
    raises anything. *)
Definition get_message (self : eid) : M World json :=
  fun w =>
    let ev := objs w self in
    let r := next_receive ev in
    Ret (default JNull r)
        (log (receive_json self r)
           (set_objs (<[self := received ev]> (objs w)) w)).

(** [Event.disconnect]: [websocket.close] is awaited without a handler,
    so what it raises goes on to the caller. *)
Definition disconnect (self : eid) (code : Z) : M World unit :=
  fun w =>
    let w' := log (websocket_close self code) w in
    if close_returns (websocket (objs w self)) then Ret tt w'
    else Raise RuntimeError w'.

(** [event.data] and [event.data = d] *)
Definition get_data (event : eid) : M World json :=
  gets (fun w => data (objs w event)).

Definition set_data (event : eid) (d : json) : M World unit :=
  modify (fun w =>
    set_objs (<[event := with_data d (objs w event)]> (objs w)) w).

(** [time.time()] *)
Definition time : M World Q :=
  fun w =>
    let t := clock (env w) (clock_reads w) in
    Ret t (log (time_time t)
             (mkWorld (cls w) (objs w) (trace w) (S (clock_reads w)) (env w))).

(** Modelled from the spec: [gradio.utils.Request] is not among the
    sources.  The backend invoker performs the call and "returns a result
    or failure": awaiting [Request(method=POST, url=..., json=...)] does
    not raise.  What comes back is the request object itself, with the
    exception of a failed call kept inside it, and [response.json] is the
    decoded answer, [None] when the call failed.  The value here is that
    [response.json]. *)
Definition Request (url : string) (body : json) : M World json :=
  fun w =>
    let response_json := default JNull (backend (env w) url body) in
    Ret response_json (log (Request_POST url body (Some response_json)) w).

(** The messages of the queue. *)
Definition msg_send_data : json := JObj [("msg"%string, JStr "send_data")].
Definition msg_process_starts : json :=
  JObj [("msg"%string, JStr "process_starts")].
Definition msg_process_completed (output : json) : json :=
  JObj [("msg"%string, JStr "process_completed"); ("output"%string, output)].

(** [await asyncio.gather( *[f(x) for x in l])], the coroutines taken in
    the order of the list. *)
Fixpoint gather {S A} (f : A -> M S unit) (l : list A) : M S unit :=
  match l with
  | [] => ret tt
  | x :: l' => f x ;;; gather f l'
  end.

(** [Queue.gather_event_data] *)
Definition gather_event_data (event : eid) : M World unit :=
  d <- get_data event ;;
  if negb (truthy d) then
    client_awake <- send_message event msg_send_data ;;
    if negb client_awake then on_cls (clean_event event)
    else
      d' <- get_message event ;;
      set_data event d'
  else ret tt.

(** [Queue.gather_data_for_first_ranks] *)
Definition gather_data_for_first_ranks : M World unit :=
  pending <- gets (fun w => EVENT_QUEUE (cls w)) ;;
  n <- gets (fun w => DATA_GATHERING_STARTS_AT (cls w)) ;;
  gather gather_event_data (py_slice_to n pending).

(** [Queue.send_estimation] *)
Definition send_estimation (event : eid) (estimation : Estimation)
  : M World unit :=
  client_awake <- send_message event (Estimation_dict estimation) ;;
  if negb client_awake then on_cls (clean_event event) else ret tt.

(** [Queue.broadcast_estimation] *)
Definition broadcast_estimation : M World unit :=
  estimation <- gets (fun w => get_estimation (cls w)) ;;
  pending <- gets (fun w => EVENT_QUEUE (cls w)) ;;
  gather (fun event => send_estimation event estimation) pending.

(** [Queue.process_event] *)
Definition process_event (event : eid) : M World unit :=
  gather_event_data event ;;;
  client_awake <- send_message event msg_process_starts ;;
  if negb client_awake then on_cls (clean_job event)
  else
    begin_time <- time ;;
    server_path <- gets (fun w => SERVER_PATH (cls w)) ;;
    d <- get_data event ;;
    response_json <- Request (str_of server_path ++ "api/predict") d ;;
    end_time <- time ;;
    on_cls (update_estimation (py_round (fsub end_time begin_time) 3)) ;;;
    client_awake <- send_message event (msg_process_completed response_json) ;;
    (if client_awake then disconnect event 1000 else ret tt) ;;;
    on_cls (clean_job event).

(** One pass through the body of [while not cls.STOP] in
    [Queue.notify_clients], after its sleep. *)
Definition notify_clients_iter : M World unit :=
  pending <- gets (fun w => EVENT_QUEUE (cls w)) ;;
  if (length pending =? 0)%nat then ret tt else broadcast_estimation.

Definition run_coro (c : coro) : M World unit :=
  match c with
  | ProcessEvent event => process_event event
  | GatherDataForFirstRanks => gather_data_for_first_ranks
  | BroadcastEstimation => broadcast_estimation
  end.

(** ** The atomic calls on the class, and their interleavings

    Between two suspension points a task runs alone, and every write of a
    task to the class attributes happens inside one of the methods below.
    A run of the dispatcher, whatever the interleaving of its tasks, is
    therefore a sequence of these calls. *)

Inductive call :=
| call_configure_queue (server_path : string) (live_queue_updates : bool)
    (queue_concurrency_count data_gathering_start update_intervals
       duration_history_size : Z)
| call_close
| call_resume
| call_push (event : eid)
| call_start_processing_iter
| call_clean_job (event : eid)
| call_clean_event (event : eid)
| call_update_estimation (duration : Q).

(** The class attributes after a call (an exception leaves what was
    written before it). *)
Definition exec (c : call) (q : Queue) : Queue :=
  match c with
  | call_configure_queue sp live n dgs ui dhs =>
      configure_queue sp live n dgs ui dhs q
  | call_close => final (close q)
  | call_resume => final (resume q)
  | call_push event => final (push event q)
  | call_start_processing_iter => final (start_processing_iter q)
  | call_clean_job event => final (clean_job event q)
  | call_clean_event event => final (clean_event event q)
  | call_update_estimation d => final (update_estimation d q)
  end.

(** The event for which a call starts [process_event], if it does. *)
Definition admits (c : call) (q : Queue) : list eid :=
  match c with
  | call_start_processing_iter =>
      match start_processing_iter q with
      | Ret (LoopAdmit event _) _ => [event]
      | _ => []
      end
  | _ => []
  end.

(** The events pushed by a sequence of calls, in order. *)
Definition pushed (c : call) : list eid :=
  match c with call_push event => [event] | _ => [] end.

(** Running a sequence of calls: the final class attributes and the events
    admitted on the way, in order of admission. *)
Fixpoint run (cs : list call) (q : Queue) : Queue * list eid :=
  match cs with
  | [] => (q, [])
  | c :: cs' =>
      let '(q', adm) := run cs' (exec c q) in (q', admits c q ++ adm)
  end.

Definition is_cancel (c : call) : bool :=
  match c with call_clean_event _ => true | _ => false end.

(** What the callers of the queue guarantee: an event is pushed only while
    it is neither pending nor in a slot (every connection gets an [Event]
    object of its own), and the concurrency count is not negative. *)
Definition permitted (c : call) (q : Queue) : Prop :=
  match c with
  | call_push event =>
      (event ∉ EVENT_QUEUE q) /\ (Some event ∉ ACTIVE_JOBS q)
  | call_configure_queue _ _ n _ _ _ => 0 <= n
  | _ => True
  end.

Inductive reachable : Queue -> Prop :=
| reachable_class : reachable Queue_class
| reachable_call c q : reachable q -> permitted c q -> reachable (exec c q).

(** The number of occupied slots. *)
Definition occupied (q : Queue) : nat :=
  length (filter is_Some (ACTIVE_JOBS q)).


(** The coroutines started when [event] is admitted. *)
Definition spawned_on_admit (event : eid) (q : Queue) : list coro :=
  [ProcessEvent event; GatherDataForFirstRanks]
  ++ if LIVE_QUEUE_UPDATES q then [BroadcastEstimation] else [].

(** What the dispatcher promises about slots and the pending queue. *)
Record dispatcher_invariant (q : Queue) : Prop := {
  slots_bounded : Z.of_nat (occupied q) <= MAX_THREAD_COUNT q;
  one_slot_per_job : forall i j event,
    ACTIVE_JOBS q !! i = Some (Some event) ->
    ACTIVE_JOBS q !! j = Some (Some event) -> i = j;
  slot_or_pending : forall event,
    Some event ∈ ACTIVE_JOBS q -> event ∉ EVENT_QUEUE q
}.

(** The inductive strengthening: the slot list has the configured length
    and the pending queue holds no event twice. *)
Record well_formed (q : Queue) : Prop := {
  wf_limit : 0 <= MAX_THREAD_COUNT q;
  wf_length : length (ACTIVE_JOBS q) = Z.to_nat (MAX_THREAD_COUNT q);
  wf_pending : NoDup (EVENT_QUEUE q);
  wf_slots : forall i j event,
    ACTIVE_JOBS q !! i = Some (Some event) ->
    ACTIVE_JOBS q !! j = Some (Some event) -> i = j;
  wf_disjoint : forall event,
    Some event ∈ ACTIVE_JOBS q -> event ∉ EVENT_QUEUE q
}.

(** The history that [update_estimation] keeps: the new duration is
    appended, and the oldest entry leaves when the list is longer than
    [DURATION_HISTORY_SIZE]. *)
Definition retained (duration : Q) (q : Queue) : list Q :=
  let h := DURATION_HISTORY q ++ [duration] in
  if DURATION_HISTORY_SIZE q <? Z.of_nat (length h) then tail h else h.

(** [sum(h) / len(h)] *)
Definition average (h : list Q) : Q :=
  fdiv (py_sum h) (float_of_int (Z.of_nat (length h))).

(** [process_event] from the ["process_starts"] message on, that is, once
    [gather_event_data] is back. *)
Definition process_event_from_start (event : eid) : M World unit :=
  client_awake <- send_message event msg_process_starts ;;
  if negb client_awake then on_cls (clean_job event)
  else
    begin_time <- time ;;
    server_path <- gets (fun w => SERVER_PATH (cls w)) ;;
    d <- get_data event ;;
    response_json <- Request (str_of server_path ++ "api/predict") d ;;
    end_time <- time ;;
    on_cls (update_estimation (py_round (fsub end_time begin_time) 3)) ;;;
    client_awake <- send_message event (msg_process_completed response_json) ;;
    (if client_awake then disconnect event 1000 else ret tt) ;;;
    on_cls (clean_job event).

(** The URL that [process_event] posts to. *)
Definition predict_url (q : Queue) : string :=
  (str_of (SERVER_PATH q) ++ "api/predict")%string.

(** The world in which [process_event] sends ["process_starts"]. *)
Definition after_gather (event : eid) (w : World) : World :=
  final (gather_event_data event w).

(** ** Concrete worlds *)

(** [Event.__init__] *)
Definition Event_init (ws : WebSocket) (h : string) : Event :=
  mkEvent ws h JNull.

(** A websocket whose client is gone: every [send_json], every
    [receive_json] and [close] raise. *)
Definition gone_websocket : WebSocket :=
  mkWebSocket (fun _ => false) (fun _ => None) 0 0 false.

(** A websocket on which the first [send_json] raises and the later ones
    return. *)
Definition once_failing_websocket : WebSocket :=
  mkWebSocket (fun n => negb (n =? 0)%nat) (fun _ => None) 0 0 true.

(** A websocket that takes every message, and on which [receive_json]
    raises (the client sends text that is not JSON, say). *)
Definition mute_websocket : WebSocket :=
  mkWebSocket (fun _ => true) (fun _ => None) 0 0 true.

(** A websocket that takes every message and delivers [payload]. *)
Definition live_websocket (payload : json) : WebSocket :=
  mkWebSocket (fun _ => true) (fun _ => Some payload) 0 0 true.


Definition example_payload : json :=
  JObj [("data"%string, JArr [JStr "hello"])].

Definition example_output : json :=
  JObj [("data"%string, JArr [JStr "olleh"])].

(** A backend that answers, with a clock that advances by one second per
    reading; and a backend whose calls fail. *)
Definition answering_env : Env :=
  mkEnv (fun _ _ => Some example_output) (fun n => inject_Z (Z.of_nat n)).

Definition failing_env : Env :=
  mkEnv (fun _ _ => None) (fun n => inject_Z (Z.of_nat n)).

(** The class after event 0 was pushed and admitted. *)
Definition one_admitted : Queue :=
  exec call_start_processing_iter (exec (call_push 0%nat) Queue_class).

(** The class after events 0 and 1 were pushed and event 0 admitted. *)
Definition one_admitted_one_pending : Queue :=
  exec call_start_processing_iter
    (exec (call_push 1%nat) (exec (call_push 0%nat) Queue_class)).


(** The double written [0.78]. *)
Definition short_job : Q := fl (78 # 100).

(** The class configured for four jobs at a time and a window of three
    durations, after two and after three jobs that took 0.78 seconds
    each. *)
Definition two_short_jobs : Queue :=
  exec (call_update_estimation short_job)
    (exec (call_update_estimation short_job)
       (exec (call_configure_queue "http://localhost:7860/" true 4 30 5 3)
          Queue_class)).

Definition three_short_jobs : Queue :=
  exec (call_update_estimation short_job) two_short_jobs.

(** A backend that answers with the JSON value [null]. *)
Definition null_env : Env :=
  mkEnv (fun _ _ => Some JNull) (fun n => inject_Z (Z.of_nat n)).

(** A world in which every event has the websocket [ws] and no payload
    yet. *)
Definition world_of (q : Queue) (ws : WebSocket) (v : Env) : World :=
  mkWorld q (fun _ => Event_init ws "hash") [] 0 v.

(** The message that [broadcast_estimation] sends: [estimation.dict()] for
    [estimation = cls.get_estimation()]. *)
Definition estimation_message (q : Queue) : json :=
  Estimation_dict (get_estimation q).

(** [d[key]] for a JSON object. *)
Fixpoint json_field (key : string) (fields : list (string * json))
  : option json :=
  match fields with
  | [] => None
  | (k, v) :: fields' =>
      if String.eqb k key then Some v else json_field key fields'
  end.

(** The ["queue_duration"] of a message, when it is an object with that
    field holding a number. *)
Definition queue_duration_of (message : json) : option Q :=
  match message with
  | JObj fields =>
      match json_field "queue_duration" fields with
      | Some (JNum x) => Some x
      | _ => None
      end
  | _ => None
  end.

(** A computation on the world keeps the class reachable: whatever it
    writes to the class, it writes through the calls of [call]. *)
Definition keeps_reachable {A} (m : M World A) : Prop :=
  forall w, reachable (cls w) -> reachable (cls (final (m w))).

(** Three arrivals, two admissions and a release in between. *)
Definition example_calls : list call :=
  [call_push 0%nat; call_push 1%nat; call_start_processing_iter;
   call_push 2%nat; call_start_processing_iter; call_clean_job 0%nat;
   call_start_processing_iter].

(** The class with an estimation of 1.73 seconds and two pending
    events. *)
Definition class_with_fraction : Queue :=
  set_ESTIMATION (fl (173 # 100))
    (exec (call_push 1%nat) (exec (call_push 0%nat) Queue_class)).

(** Normal form of a world after a step. *)
Ltac world_simpl :=
  cbn [cls objs trace clock_reads env log set_objs set_cls data websocket
       sends receives send_json_returns receive_json_result close_returns
       sent received with_data hash] in *;
  rewrite ?fn_lookup_insert in *.


(** ** Further notions for the rest of the queue *)

(** The event an external call is about, if any. *)
Definition io_event (x : io) : option eid :=
  match x with
  | send_json event _ _ => Some event
  | receive_json event _ => Some event
  | websocket_close event _ => Some event
  | Request_POST _ _ _ => None
  | time_time _ => None
  end.

(** The last [n] entries of a list. *)
Definition last_n {A} (n : nat) (l : list A) : list A :=
  drop (length l - n) l.

(** The calls that [process_event] can make once [gather_event_data] is
    back, in order: the ways through its body. *)
Definition job_calls (event : eid) (calls : list io) : Prop :=
  calls = [send_json event msg_process_starts false] \/
  (exists t0 url d,
     calls = [send_json event msg_process_starts true; time_time t0;
              Request_POST url d None]) \/
  (exists t0 t1 url d out,
     calls = [send_json event msg_process_starts true; time_time t0;
              Request_POST url d (Some out); time_time t1]) \/
  (exists t0 t1 url d out delivered,
     calls = [send_json event msg_process_starts true; time_time t0;
              Request_POST url d (Some out); time_time t1;
              send_json event (msg_process_completed out) delivered]
             ++ (if delivered : bool then [websocket_close event 1000]
                 else [])).

(** The calls that [gather_event_data] can make. *)
Definition fetch_calls (event : eid) (calls : list io) : Prop :=
  calls = [] \/
  calls = [send_json event msg_send_data false] \/
  (exists r, calls = [send_json event msg_send_data true;
                      receive_json event r]).

(** * gradio/examples.py: the examples given to [Examples.__init__]

    The part of [Examples.__init__] that reads the parameter [examples]
    and works out which input components have example values.  The
    components themselves are opaque; the file system is read through
    [FS]. *)

(** Python values as they occur in examples. *)
#[warnings="-register-all"]
Inductive pyval :=
| PyNone
| PyInt (z : Z)
| PyStr (s : string)
| PyList (items : list pyval).

(** [x is None] *)
Definition is_None (x : pyval) : bool :=
  match x with PyNone => true | _ => false end.

(** The items that [for ... in x] goes through: those of a list, the
    characters of a string; [None] stands for the [TypeError] of a value
    that is not iterable. *)
Definition py_iter (x : pyval) : option (list pyval) :=
  match x with
  | PyList items => Some items
  | PyStr s =>
      Some (map (fun c => PyStr (String c EmptyString)) (list_ascii_of_string s))
  | PyInt _ => None
  | PyNone => None
  end.

Inductive init_error :=
| InitValueError (message : string)
| InitFileNotFoundError (message : string)
| InitTypeError.

(** What [__init__] asks of the file system: [Path(p).exists()],
    [Path(p) / name], [os.listdir(p)] and [list(csv.reader(open(p)))]. *)
Record FS := mkFS {
  path_exists : string -> bool;
  path_join : string -> string -> string;
  listdir : string -> list string;
  csv_rows : string -> list (list string)
}.

Definition LOG_FILE : string := "log.csv".

(** The chain [if examples is None: ... elif ... else: ...] of
    [Examples.__init__]: the examples as a list of samples, and the
    working directory. *)
Definition normalize_examples (fs : FS) (n_inputs : nat)
    (working_directory : string) (examples : pyval)
  : init_error + (list pyval * string) :=
  match examples with
  | PyNone => inl (InitValueError "The parameter `examples` cannot be None")
  | PyList l =>
      match l with
      | [] => inr (l, working_directory)
      | PyList _ :: _ => inr (l, working_directory)
      | _ =>
          if (n_inputs =? 1)%nat
          then inr (map (fun e => PyList [e]) l, working_directory)
          else inl (InitValueError
                 "The parameter `examples` must either be a string directory or a list(if there is only 1 input component) or (more generally), a nested list, where each sublist represents a set of inputs.")
      end
  | PyStr p =>
      if negb (path_exists fs p)
      then inl (InitFileNotFoundError
                  ("Could not find examples directory: " ++ p))
      else if negb (path_exists fs (path_join fs p LOG_FILE))
      then
        if (n_inputs =? 1)%nat
        then inr (map (fun e => PyList [PyStr e]) (listdir fs p), p)
        else inl (InitFileNotFoundError
                    ("Could not find log file (required for multiple inputs): "
                     ++ LOG_FILE))
      else
        let rows := csv_rows fs (path_join fs p LOG_FILE) in
        inr (map (fun row => PyList (map PyStr (take n_inputs row)))
               (tail rows), p)
  | PyInt _ =>
      inl (InitValueError
             "The parameter `examples` must either be a string directory or a list(if there is only 1 input component) or (more generally), a nested list, where each sublist represents a set of inputs.")
  end.

(** The inner loop [for idx, example_for_input in enumerate(example)]:
    [input_has_examples[idx] = True] for every item that is not [None];
    an index past the end is the [IndexError] that the code passes
    over. *)
Fixpoint mark_inputs (idx : nat) (example : list pyval) (flags : list bool)
  : list bool :=
  match example with
  | [] => flags
  | x :: rest =>
      mark_inputs (S idx) rest
        (if is_None x then flags else <[idx := true]> flags)
  end.

(** The outer loop [for example in examples]. *)
Fixpoint input_has_examples_loop (examples : list pyval) (flags : list bool)
  : init_error + list bool :=
  match examples with
  | [] => inr flags
  | example :: rest =>
      match py_iter example with
      | None => inl InitTypeError
      | Some items => input_has_examples_loop rest (mark_inputs 0 items flags)
      end
  end.

(** [input_has_examples], from [[False] * len(inputs)]. *)
Definition input_has_examples (n_inputs : nat) (examples : list pyval)
  : init_error + list bool :=
  input_has_examples_loop examples (replicate n_inputs false).

(** [[x for (x, keep) in zip(xs, flags) if keep]] *)
Fixpoint keep_flagged {A} (xs : list A) (flags : list bool) : list A :=
  match xs, flags with
  | x :: xs', keep :: flags' =>
      if keep then x :: keep_flagged xs' flags' else keep_flagged xs' flags'
  | _, _ => []
  end.

(** [inputs_with_examples] *)
Definition inputs_with_examples {component} (inputs : list component)
    (flags : list bool) : list component :=
  keep_flagged inputs flags.

(** [non_none_examples]; [None] stands for the [TypeError] of a sample
    that is not iterable. *)
Fixpoint non_none_examples (examples : list pyval) (flags : list bool)
  : option (list (list pyval)) :=
  match examples with
  | [] => Some []
  | example :: rest =>
      match py_iter example, non_none_examples rest flags with
      | Some items, Some rows => Some (keep_flagged items flags :: rows)
      | _, _ => None
      end
  end.

(** A directory with a log of three rows, the first being the header. *)
Definition example_fs : FS :=
  mkFS (fun _ => true)
       (fun dir name => (dir ++ "/" ++ name)%string)
       (fun _ => [])
       (fun _ => [["image"; "label"; "flag"]; ["cat.png"; "cat"; "x"];
                  ["dog.png"]]%string).
(** ** Properties of the model of Python's lists *)

Section PyListFacts.
Context {A : Type} `{EqDecision A}.
Implicit Types (x y : A) (l : list A).

Lemma py_index_Some x l i :
  py_index x l = Some i -> (l !! i = Some x) /\ (x ∉ take i l).
Proof.
  revert i; induction l as [|y l IH]; intros i; simpl; [done|].
  destruct (decide (y = x)) as [->|Hne].
  - intros [= <-]. split; [done|]. simpl. apply not_elem_of_nil.
  - destruct (py_index x l) as [j|] eqn:E; simpl; [|done].
    intros [= <-]. destruct (IH j eq_refl) as [H1 H2]. split; [done|].
    simpl. rewrite not_elem_of_cons. split; [congruence|done].
Qed.

Lemma py_index_None x l : py_index x l = None <-> x ∉ l.
Proof.
  induction l as [|y l IH]; simpl.
  - split; [intros _; apply not_elem_of_nil|done].
  - destruct (decide (y = x)) as [->|Hne].
    + split; [done|]. intros H; exfalso; apply H; left.
    + rewrite not_elem_of_cons. destruct (py_index x l); simpl.
      * split; [done|]. intros [_ H]. apply IH in H. done.
      * split; [|done]. intros _. split; [congruence|]. by apply IH.
Qed.

Lemma py_index_is_Some x l : x ∈ l -> is_Some (py_index x l).
Proof.
  intros Hin. destruct (py_index x l) eqn:E; [by eexists|].
  apply py_index_None in E. done.
Qed.

Lemma py_remove_None x l : py_remove x l = None <-> x ∉ l.
Proof.
  induction l as [|y l IH]; simpl.
  - split; [intros _; apply not_elem_of_nil|done].
  - destruct (decide (y = x)) as [->|Hne].
    + split; [done|]. intros H; exfalso; apply H; left.
    + rewrite not_elem_of_cons. destruct (py_remove x l); simpl.
      * split; [done|]. intros [_ H]. apply IH in H. done.
      * split; [|done]. intros _. split; [congruence|]. by apply IH.
Qed.

Lemma py_remove_Some x l l' :
  py_remove x l = Some l' ->
  exists l1 l2, l = l1 ++ x :: l2 /\ (x ∉ l1) /\ l' = l1 ++ l2.
Proof.
  revert l'; induction l as [|y l IH]; intros l'; simpl; [done|].
  destruct (decide (y = x)) as [->|Hne].
  - intros [= <-]. exists [], l. split; [done|]. split; [|done].
    apply not_elem_of_nil.
  - destruct (py_remove x l) as [r|] eqn:E; simpl; [|done].
    intros [= <-]. destruct (IH r eq_refl) as (l1 & l2 & -> & Hn & ->).
    exists (y :: l1), l2. split; [done|]. split; [|done].
    rewrite not_elem_of_cons. split; [congruence|done].
Qed.
End PyListFacts.

(** ** [configure_queue] *)

Lemma configure_queue_UPDATE_INTERVALS
    (server_path : string) (live : bool) (n dgs ui dhs : Z) (q : Queue) :
  UPDATE_INTERVALS (configure_queue server_path live n dgs ui dhs q)
  = if negb live && (ui =? 5) then 10 else ui.
Proof. reflexivity. Qed.

(** C9: [configure_queue] stores 10 as the broadcast interval when live
    updates are off and the interval passed is 5, and stores the interval
    passed in every other case; so the stored interval differs from the
    one passed exactly in that case. *)
Theorem configure_queue_update_intervals
    (server_path : string) (live : bool) (n dgs ui dhs : Z) (q : Queue) :
  let stored :=
    UPDATE_INTERVALS (configure_queue server_path live n dgs ui dhs q) in
  (live = false /\ ui = 5 -> stored = 10) /\
  (~ (live = false /\ ui = 5) -> stored = ui) /\
  (stored <> ui <-> live = false /\ ui = 5).
Proof.
  cbv zeta. rewrite configure_queue_UPDATE_INTERVALS.
  destruct live; simpl; [|destruct (Z.eqb_spec ui 5)];
    intuition (try congruence; try lia).
Qed.

Lemma configure_queue_update_intervals_witness :
  UPDATE_INTERVALS (configure_queue "http://localhost/" false 1 30 5 100
                      Queue_class) = 10.
Proof.
  apply (proj1 (configure_queue_update_intervals
                  "http://localhost/" false 1 30 5 100 Queue_class)).
  split; reflexivity.
Defined.

(** ** [clean_event] *)

Lemma set_cls_same (w : World) : set_cls (cls w) w = w.
Proof. by destruct w. Qed.

Lemma set_EVENT_QUEUE_same (q : Queue) : set_EVENT_QUEUE (EVENT_QUEUE q) q = q.
Proof. by destruct q. Qed.

Lemma clean_event_Ret (event : eid) (q : Queue) :
  clean_event event q
  = Ret tt (match py_remove event (EVENT_QUEUE q) with
            | Some l => set_EVENT_QUEUE l q
            | None => q
            end).
Proof.
  unfold clean_event, try_except_ValueError, EVENT_QUEUE_remove.
  by destruct (py_remove event (EVENT_QUEUE q)).
Qed.

(** C7: [clean_event] never raises; it touches nothing but the pending
    queue, sends nothing, and leaves the whole state as it is when the
    event is not pending (so also when the event sits in a slot); when the
    event is pending, its first occurrence is taken out and the order of
    the others is kept. *)
Theorem clean_event_cancel (event : eid) (w : World) :
  exists q',
    on_cls (clean_event event) w = Ret tt (set_cls q' w) /\
    q' = set_EVENT_QUEUE (EVENT_QUEUE q') (cls w) /\
    (event ∉ EVENT_QUEUE (cls w) -> set_cls q' w = w) /\
    (event ∈ EVENT_QUEUE (cls w) ->
     exists l1 l2, EVENT_QUEUE (cls w) = l1 ++ event :: l2 /\
                   (event ∉ l1) /\ EVENT_QUEUE q' = l1 ++ l2).
Proof.
  unfold on_cls. rewrite clean_event_Ret.
  destruct (py_remove event (EVENT_QUEUE (cls w))) as [l|] eqn:E.
  - exists (set_EVENT_QUEUE l (cls w)). split; [done|]. split; [done|].
    destruct (py_remove_Some _ _ _ E) as (l1 & l2 & Hq & Hn & ->).
    split.
    + intros Hnot. exfalso. apply Hnot. rewrite Hq.
      apply elem_of_app. right. left.
    + intros _. by exists l1, l2.
  - exists (cls w). split; [done|]. split; [by rewrite set_EVENT_QUEUE_same|].
    split.
    + intros _. apply set_cls_same.
    + intros Hin. by apply py_remove_None in E.
Qed.

(** ** [start_processing] *)

Lemma py_in_true {A} `{EqDecision A} (x : A) l : py_in x l = true <-> x ∈ l.
Proof. unfold py_in. by rewrite bool_decide_eq_true. Qed.

Lemma py_in_false {A} `{EqDecision A} (x : A) l : py_in x l = false <-> x ∉ l.
Proof. unfold py_in. by rewrite bool_decide_eq_false. Qed.

(** The four ways through the loop body. *)
Lemma start_processing_iter_cases (q : Queue) :
  (STOP q = true /\ start_processing_iter q = Ret LoopExit q) \/
  (STOP q = false /\ EVENT_QUEUE q = [] /\
   start_processing_iter q = Ret (LoopSleep SLEEP_WHEN_FREE) q) \/
  (STOP q = false /\ EVENT_QUEUE q <> [] /\ (None ∉ ACTIVE_JOBS q) /\
   start_processing_iter q = Ret (LoopSleep 1) q) \/
  (exists event rest i,
     STOP q = false /\ EVENT_QUEUE q = event :: rest /\
     py_index None (ACTIVE_JOBS q) = Some i /\
     start_processing_iter q
     = Ret (LoopAdmit event (spawned_on_admit event q))
           (set_ACTIVE_JOBS (<[i := Some event]> (ACTIVE_JOBS q))
              (set_EVENT_QUEUE rest q))).
Proof.
  unfold start_processing_iter, bind, gets, ret.
  destruct (STOP q) eqn:Hstop; [by left|]. right.
  destruct (EVENT_QUEUE q) as [|event rest] eqn:Hq; simpl; [by left|]. right.
  destruct (py_in None (ACTIVE_JOBS q)) eqn:Hin; simpl.
  - right. apply py_in_true in Hin.
    destruct (py_index_is_Some _ _ Hin) as [i Hi].
    exists event, rest, i. repeat split; try done.
    unfold EVENT_QUEUE_pop0, ACTIVE_JOBS_index, modify. rewrite Hq. simpl.
    rewrite Hi. done.
  - left. apply py_in_false in Hin. done.
Qed.

Lemma start_processing_iter_admits (q : Queue) event rest :
  STOP q = false -> EVENT_QUEUE q = event :: rest -> None ∈ ACTIVE_JOBS q ->
  exists i,
    py_index None (ACTIVE_JOBS q) = Some i /\
    start_processing_iter q
    = Ret (LoopAdmit event (spawned_on_admit event q))
          (set_ACTIVE_JOBS (<[i := Some event]> (ACTIVE_JOBS q))
             (set_EVENT_QUEUE rest q)).
Proof.
  intros Hstop Hq Hin.
  destruct (start_processing_iter_cases q)
    as [[H _]|[(_ & H & _)|[(_ & _ & H & _)|(e & r & i & _ & H & Hi & Hr)]]];
    try congruence; try done.
  rewrite Hq in H. injection H as <- <-. by exists i.
Qed.

(** [update_estimation] in closed form. *)
Lemma update_estimation_eq (d : Q) (q : Queue) :
  update_estimation d q =
  let h := retained d q in
  let q1 := set_DURATION_HISTORY h q in
  if (length h =? 0)%nat then Raise ZeroDivisionError q1
  else if MAX_THREAD_COUNT q =? 0 then Raise ZeroDivisionError q1
  else Ret tt (set_ESTIMATION
                 (py_round (fadd (fdiv (average h)
                                       (float_of_int (MAX_THREAD_COUNT q)))
                                 d) 2)
                 q1).
Proof.
  unfold update_estimation, retained, average, bind, modify, gets, ret, raise.
  simpl.
  destruct (DURATION_HISTORY_SIZE q <? _); simpl;
    destruct (length _ =? 0)%nat; simpl; try done;
    destruct (MAX_THREAD_COUNT q =? 0); done.
Qed.

(** [update_estimation] writes the history and the estimation only, also
    when it raises. *)
Lemma update_estimation_frame (d : Q) (q : Queue) :
  let q' := final (update_estimation d q) in
  EVENT_QUEUE q' = EVENT_QUEUE q /\ ACTIVE_JOBS q' = ACTIVE_JOBS q /\
  MAX_THREAD_COUNT q' = MAX_THREAD_COUNT q /\ STOP q' = STOP q /\
  LIVE_QUEUE_UPDATES q' = LIVE_QUEUE_UPDATES q /\
  SERVER_PATH q' = SERVER_PATH q /\
  DURATION_HISTORY_SIZE q' = DURATION_HISTORY_SIZE q.
Proof.
  rewrite update_estimation_eq. simpl.
  destruct (length _ =? 0)%nat; [done|].
  destruct (MAX_THREAD_COUNT q =? 0); done.
Qed.

(** Each call other than a cancellation moves events from the head of the
    pending queue to the admitted ones, or adds one at the tail. *)
Lemma exec_fifo (c : call) (q : Queue) :
  is_cancel c = false ->
  admits c q ++ EVENT_QUEUE (exec c q) = EVENT_QUEUE q ++ pushed c.
Proof.
  intros Hc. destruct c; simpl in *; try done;
    try (by rewrite app_nil_r).
  - destruct (start_processing_iter_cases q)
      as [[_ H]|[(_ & _ & H)|[(_ & _ & _ & H)|(e & r & i & _ & Hq & _ & H)]]];
      rewrite H; simpl; by rewrite ?Hq, ?app_nil_r.
  - unfold clean_job. destruct (py_index _ _); simpl; by rewrite app_nil_r.
  - rewrite app_nil_r. by destruct (update_estimation_frame duration q).
Qed.

Lemma run_cons (c : call) (cs : list call) (q : Queue) :
  run (c :: cs) q = ((run cs (exec c q)).1, admits c q ++ (run cs (exec c q)).2).
Proof. simpl. by destruct (run cs (exec c q)). Qed.

Lemma run_fifo (cs : list call) (q : Queue) :
  Forall (fun c => is_cancel c = false) cs ->
  (run cs q).2 ++ EVENT_QUEUE (run cs q).1
  = EVENT_QUEUE q ++ flat_map pushed cs.
Proof.
  intros Hcs. revert q.
  induction Hcs as [|c cs Hc _ IH]; intros q.
  - simpl. by rewrite app_nil_r.
  - rewrite run_cons. cbn [fst snd flat_map].
    rewrite <- app_assoc, IH, !app_assoc. f_equal. by apply exec_fifo.
Qed.

(** C2: [push] puts the event at the tail of the pending queue, an
    admitting pass of [start_processing] takes the head, and so, along any
    sequence of calls without a cancellation, the events admitted so far
    followed by the events still pending are the events in their order of
    arrival. *)
Theorem fifo_admission (cs : list call) (q : Queue) :
  Forall (fun c => is_cancel c = false) cs ->
  (forall event q0,
     push event q0 = Ret tt (set_EVENT_QUEUE (EVENT_QUEUE q0 ++ [event]) q0)) /\
  (forall q0 event rest,
     STOP q0 = false -> EVENT_QUEUE q0 = event :: rest ->
     None ∈ ACTIVE_JOBS q0 ->
     admits call_start_processing_iter q0 = [event] /\
     EVENT_QUEUE (exec call_start_processing_iter q0) = rest) /\
  (run cs q).2 ++ EVENT_QUEUE (run cs q).1
  = EVENT_QUEUE q ++ flat_map pushed cs.
Proof.
  intros Hcs. split; [done|]. split; [|by apply run_fifo].
  intros q0 event rest Hstop Hq Hfree.
  destruct (start_processing_iter_admits q0 event rest Hstop Hq Hfree)
    as (i & _ & Hrun).
  simpl. rewrite Hrun. done.
Qed.

(** ** The slot pool and the pending queue *)

Lemma occupied_le_length (q : Queue) :
  (occupied q <= length (ACTIVE_JOBS q))%nat.
Proof. apply length_filter. Qed.

Lemma well_formed_invariant (q : Queue) :
  well_formed q -> dispatcher_invariant q.
Proof.
  intros [Hlim Hlen Hp Hs Hd]. split; [|done|done].
  pose proof (occupied_le_length q). lia.
Qed.

Lemma well_formed_class : well_formed Queue_class.
Proof.
  split; simpl; try done.
  - apply NoDup_nil_2.
  - intros [|[|i]] j event; simpl; done.
  - intros event H. apply not_elem_of_nil.
Qed.

Lemma well_formed_release (q : Queue) i :
  well_formed q ->
  well_formed (set_ACTIVE_JOBS (<[i := None]> (ACTIVE_JOBS q)) q).
Proof.
  intros [Hlim Hlen Hp Hs Hd]. split; simpl; try done.
  - by rewrite length_insert.
  - intros a b event Ha Hb.
    apply list_lookup_insert_Some in Ha as [(_ & ? & _)|[_ Ha]]; [done|].
    apply list_lookup_insert_Some in Hb as [(_ & ? & _)|[_ Hb]]; [done|].
    by eapply Hs.
  - intros event Hin. apply Hd.
    apply list_elem_of_lookup in Hin as [a Ha].
    apply list_lookup_insert_Some in Ha as [(_ & ? & _)|[_ Ha]]; [done|].
    by eapply list_elem_of_lookup_2.
Qed.

Lemma well_formed_admit (q : Queue) event rest i :
  well_formed q -> EVENT_QUEUE q = event :: rest ->
  py_index None (ACTIVE_JOBS q) = Some i ->
  well_formed (set_ACTIVE_JOBS (<[i := Some event]> (ACTIVE_JOBS q))
                 (set_EVENT_QUEUE rest q)).
Proof.
  intros [Hlim Hlen Hp Hs Hd] Hq Hi. rewrite Hq in Hp, Hd.
  apply list.NoDup_cons in Hp as [Hfresh Hp].
  assert (Hslot : Some event ∉ ACTIVE_JOBS q).
  { intros Hin. apply (Hd _ Hin). left. }
  split; simpl; try done.
  - by rewrite length_insert.
  - intros a b x Ha Hb.
    apply list_lookup_insert_Some in Ha as [(<- & Hx & _)|[Hne Ha]];
      apply list_lookup_insert_Some in Hb as [(<- & Hy & _)|[Hne' Hb]];
      try done.
    + injection Hx as <-. exfalso. apply Hslot.
      by eapply list_elem_of_lookup_2.
    + injection Hy as <-. exfalso. apply Hslot.
      by eapply list_elem_of_lookup_2.
    + by eapply Hs.
  - intros x Hin. apply list_elem_of_lookup in Hin as [a Ha].
    apply list_lookup_insert_Some in Ha as [(_ & [= <-] & _)|[_ Ha]]; [done|].
    apply list_elem_of_lookup_2 in Ha. apply Hd in Ha.
    apply not_elem_of_cons in Ha. tauto.
Qed.

Lemma well_formed_remove (q : Queue) l1 l2 event :
  well_formed q -> EVENT_QUEUE q = l1 ++ event :: l2 ->
  well_formed (set_EVENT_QUEUE (l1 ++ l2) q).
Proof.
  intros [Hlim Hlen Hp Hs Hd] Hq. rewrite Hq in Hp, Hd.
  split; simpl; try done.
  - apply list.NoDup_app in Hp as (H1 & H2 & H3).
    apply list.NoDup_cons in H3 as [_ H3]. apply list.NoDup_app. repeat split; try done.
    intros x Hx Hx'. apply (H2 x Hx). by right.
  - intros x Hin Hx. apply (Hd x Hin).
    apply elem_of_app in Hx as [Hx|Hx]; apply elem_of_app; [by left|].
    right. by right.
Qed.

(** Every permitted call keeps the dispatcher well formed. *)
Lemma well_formed_exec (c : call) (q : Queue) :
  well_formed q -> permitted c q -> well_formed (exec c q).
Proof.
  intros Hwf Hperm. pose proof Hwf as [Hlim Hlen Hp Hs Hd].
  destruct c; simpl in *; try done.
  - split; simpl; try done.
    + unfold py_repeat. by rewrite length_replicate.
    + intros i j event Hi _. unfold py_repeat in Hi.
      apply lookup_replicate in Hi as [? _]. done.
    + intros event Hin. unfold py_repeat in Hin.
      apply elem_of_replicate in Hin as [? _]. done.
  - split; simpl; try done.
    + apply list.NoDup_app. repeat split; [done| |apply NoDup_singleton].
      intros x Hx Hx'. apply list_elem_of_singleton in Hx' as ->. tauto.
    + intros x Hin Hx. apply elem_of_app in Hx as [Hx|Hx].
      * by apply (Hd x).
      * apply list_elem_of_singleton in Hx as ->. tauto.
  - destruct (start_processing_iter_cases q)
      as [[_ H]|[(_ & _ & H)|[(_ & _ & _ & H)|(e & r & i & _ & Hq & Hi & H)]]];
      rewrite H; simpl; try done.
    by apply well_formed_admit.
  - unfold clean_job. destruct (py_index _ _); simpl; [|done].
    by apply well_formed_release.
  - rewrite clean_event_Ret. simpl.
    destruct (py_remove event (EVENT_QUEUE q)) as [l|] eqn:E; [|done].
    destruct (py_remove_Some _ _ _ E) as (l1 & l2 & Hq & _ & ->).
    by eapply well_formed_remove.
  - destruct (update_estimation_frame duration q)
      as (H1 & H2 & H3 & _). split; rewrite ?H1, ?H2, ?H3; done.
Qed.

Lemma reachable_well_formed (q : Queue) : reachable q -> well_formed q.
Proof.
  induction 1 as [|c q _ IH Hperm]; [apply well_formed_class|].
  by apply well_formed_exec.
Qed.

(** C1: in every state the dispatcher reaches from the class as defined,
    through any interleaving of its class methods called as their callers
    do, the occupied slots are at most [MAX_THREAD_COUNT], no event is in
    two slots, and no event is both in a slot and pending. *)
Theorem reachable_invariant (q : Queue) :
  reachable q -> dispatcher_invariant q.
Proof.
  intros Hr. by apply well_formed_invariant, reachable_well_formed.
Qed.

(** ** The estimation *)

Lemma round_half_even_comp (x y : Q) :
  (x == y)%Q -> round_half_even x = round_half_even y.
Proof.
  intros H. unfold round_half_even.
  rewrite (Qfloor_comp x y H).
  assert (Hc : (x - inject_Z (Qfloor y) ?= 1 # 2)%Q
               = (y - inject_Z (Qfloor y) ?= 1 # 2)%Q).
  { apply Qcompare_comp; [by rewrite H|reflexivity]. }
  by rewrite Hc.
Qed.

Lemma round_half_even_near (x : Q) :
  (Qabs (inject_Z (round_half_even x) - x) <= 1 # 2)%Q.
Proof.
  unfold round_half_even.
  pose proof (Qfloor_le x) as Hlo. pose proof (Qlt_floor x) as Hhi.
  rewrite inject_Z_plus in Hhi. change (inject_Z 1) with 1%Q in Hhi.
  apply Qabs_Qle_condition.
  destruct (x - inject_Z (Qfloor x) ?= 1 # 2)%Q eqn:Hc.
  - apply Qeq_alt in Hc.
    destruct (Z.even (Qfloor x)); rewrite ?inject_Z_plus;
      change (inject_Z 1) with 1%Q; split; lra.
  - apply Qlt_alt in Hc. split; lra.
  - apply Qgt_alt in Hc. rewrite inject_Z_plus.
    change (inject_Z 1) with 1%Q. split; lra.
Qed.

(** Half way between two integers, [round_half_even] takes the even
    one. *)
Lemma round_half_even_tie (x : Q) :
  (Qabs (inject_Z (round_half_even x) - x) == 1 # 2)%Q ->
  Z.even (round_half_even x) = true.
Proof.
  unfold round_half_even.
  pose proof (Qfloor_le x) as Hlo. pose proof (Qlt_floor x) as Hhi.
  rewrite inject_Z_plus in Hhi. change (inject_Z 1) with 1%Q in Hhi.
  destruct (x - inject_Z (Qfloor x) ?= 1 # 2)%Q eqn:Hc.
  - intros _. destruct (Z.even (Qfloor x)) eqn:He; [done|].
    rewrite Z.even_add, He. done.
  - apply Qlt_alt in Hc. intros H. exfalso.
    rewrite Qabs_neg in H by lra. lra.
  - apply Qgt_alt in Hc. rewrite inject_Z_plus.
    change (inject_Z 1) with 1%Q. intros H. exfalso.
    rewrite Qabs_pos in H by lra. lra.
Qed.

(** [fl] and [round] depend on the number only, not on the fraction that
    stands for it. *)
Lemma fl_comp (x y : Q) : (x == y)%Q -> fl x = fl y.
Proof. intros H. unfold fl. by rewrite (Qred_complete x y H). Qed.

(** Powers of two. *)

Lemma two_pow_pos (e : Z) : (0 < 2 ^ e)%Q.
Proof. by apply Qpower_0_lt. Qed.

Lemma two_pow_plus (a b : Z) : (2 ^ (a + b) == 2 ^ a * 2 ^ b)%Q.
Proof. by apply Qpower_plus. Qed.

Lemma two_pow_le (a b : Z) : a <= b -> (2 ^ a <= 2 ^ b)%Q.
Proof. intros H. by apply Qpower_le_compat_l. Qed.

Lemma two_pow_inject (n : Z) : 0 <= n -> (inject_Z (2 ^ n) == 2 ^ n)%Q.
Proof. intros H. by rewrite Zpower_Qpower. Qed.

(** A number lies in one binade only. *)
Lemma binade_unique (v : Q) (a b : Z) :
  (2 ^ a <= v < 2 ^ (a + 1))%Q -> (2 ^ b <= v < 2 ^ (b + 1))%Q -> a = b.
Proof.
  intros [Ha1 Ha2] [Hb1 Hb2].
  destruct (Z.lt_trichotomy a b) as [Hlt|[Heq|Hgt]]; [|done|]; exfalso.
  - pose proof (two_pow_le (a + 1) b ltac:(lia)). lra.
  - pose proof (two_pow_le (b + 1) a ltac:(lia)). lra.
Qed.

Lemma Zlog2_bounds (a : Z) :
  0 < a -> (2 ^ Z.log2 a <= inject_Z a < 2 ^ (Z.log2 a + 1))%Q.
Proof.
  intros Ha. destruct (Z.log2_spec a Ha) as [H1 H2].
  pose proof (Z.log2_nonneg a) as Hn.
  rewrite <- !two_pow_inject by lia. unfold Z.succ in H2.
  split; [by rewrite <- Zle_Qle|by rewrite <- Zlt_Qlt].
Qed.

Lemma Qabs_Qmake (x : Q) : (Qabs x == Z.abs (Qnum x) # Qden x)%Q.
Proof. by destruct x. Qed.

Lemma Qmake_div (a : Z) (d : positive) :
  (a # d == inject_Z a / inject_Z (Zpos d))%Q.
Proof. apply Qmake_Qdiv. Qed.

(** [binade] is the exponent of the binade of a number other than 0. *)
Lemma binade_spec (x : Q) :
  ~ (x == 0)%Q -> (2 ^ binade x <= Qabs x < 2 ^ (binade x + 1))%Q.
Proof.
  intros Hx. unfold binade.
  set (a := Z.abs (Qnum x)). set (d := Qden x).
  set (l := Z.log2 a - Z.log2 (Z.pos d)).
  assert (Ha : 0 < a).
  { unfold a. assert (Qnum x <> 0); [|lia].
    intros H0. apply Hx. unfold Qeq. simpl. lia. }
  destruct (Zlog2_bounds a Ha) as [Ha1 Ha2].
  destruct (Zlog2_bounds (Z.pos d) ltac:(lia)) as [Hd1 Hd2].
  rewrite Qabs_Qmake. fold a d. rewrite (Qmake_div a d).
  set (qa := inject_Z a) in *. set (qd := inject_Z (Z.pos d)) in *.
  pose proof (two_pow_pos (Z.log2 (Z.pos d))) as Hpd.
  pose proof (two_pow_pos (Z.log2 a)) as Hpa.
  pose proof (two_pow_pos l) as Hpl.
  assert (Hqd : (0 < qd)%Q) by lra.
  assert (Hla : (2 ^ Z.log2 a == 2 ^ l * 2 ^ Z.log2 (Z.pos d))%Q).
  { rewrite <- two_pow_plus. unfold l.
    by replace (Z.log2 a - Z.log2 (Z.pos d) + Z.log2 (Z.pos d)) with (Z.log2 a)
      by lia. }
  assert (Hs : forall k, (2 ^ (k + 1) == 2 * 2 ^ k)%Q).
  { intros k. rewrite two_pow_plus. change (2 ^ 1)%Q with 2%Q. ring. }
  rewrite Hs in Ha2, Hd2.
  assert (Hup : (qa / qd < 2 * 2 ^ l)%Q).
  { apply Qlt_shift_div_r; [done|]. nra. }
  assert (Hlo : (2 ^ l < 2 * (qa / qd))%Q).
  { assert (Heq : (2 * (qa / qd) == (2 * qa) / qd)%Q) by (field; lra).
    rewrite Heq. apply Qlt_shift_div_l; [done|]. nra. }
  destruct (Qle_bool (2 ^ l) (qa / qd)) eqn:Hb.
  - apply Qle_bool_iff in Hb. rewrite Hs. split; [done|lra].
  - assert (Hlt : (qa / qd < 2 ^ l)%Q).
    { apply Qnot_le_lt. intros H. apply Qle_bool_iff in H. congruence. }
    replace (l - 1 + 1) with l by lia.
    assert (Hl1 : (2 ^ l == 2 * 2 ^ (l - 1))%Q).
    { rewrite <- Hs. by replace (l - 1 + 1) with l by lia. }
    split; [lra|done].
Qed.

Lemma round_half_even_inject (n : Z) : round_half_even (inject_Z n) = n.
Proof.
  unfold round_half_even. rewrite Qfloor_Z.
  assert (H : (inject_Z n - inject_Z n ?= 1 # 2)%Q = Lt).
  { rewrite <- Qlt_alt. generalize (inject_Z n). intros q. lra. }
  by rewrite H.
Qed.

Lemma round_half_even_bound (v : Q) (N : Z) :
  (Qabs v < inject_Z N)%Q -> Z.abs (round_half_even v) <= N.
Proof.
  intros Hv. pose proof (round_half_even_near v) as Hn.
  set (r := round_half_even v) in *.
  apply Qabs_Qle_condition in Hn. apply Qabs_Qlt_condition in Hv.
  assert (H1 : (inject_Z r < inject_Z (N + 1))%Q).
  { rewrite inject_Z_plus. change (inject_Z 1) with 1%Q. lra. }
  assert (H2 : (inject_Z (- N - 1) < inject_Z r)%Q).
  { unfold Z.sub. rewrite inject_Z_plus, inject_Z_opp.
    change (inject_Z (- (1))) with (- (1))%Q. lra. }
  rewrite <- Zlt_Qlt in H1, H2. lia.
Qed.

Lemma fl_zero (x : Q) : (x == 0)%Q -> fl x = 0%Q.
Proof. intros H. by rewrite (fl_comp x 0 H). Qed.

Lemma fl_value (x : Q) :
  ~ (x == 0)%Q ->
  let e := Z.max (binade (Qred x) - 52) (-1074) in
  fl x = Qred (inject_Z (round_half_even (Qred x / 2 ^ e)) * 2 ^ e).
Proof.
  intros Hx. unfold fl.
  destruct (Z.eqb_spec (Qnum (Qred x)) 0) as [H0|_]; [exfalso|done].
  apply Hx. rewrite <- (Qred_correct x). unfold Qeq. simpl. lia.
Qed.

(** The significand that [fl] takes has at most 53 bits, or is [2 ^ 53]. *)
Lemma significand_bound (r : Q) :
  ~ (r == 0)%Q ->
  let e := Z.max (binade r - 52) (-1074) in
  Z.abs (round_half_even (r / 2 ^ e)) <= 2 ^ 53.
Proof.
  intros Hr e. apply round_half_even_bound.
  destruct (binade_spec r Hr) as [_ Hhi].
  pose proof (two_pow_pos e) as He.
  unfold Qdiv. rewrite Qabs_Qmult, Qabs_Qinv, (Qabs_pos (2 ^ e)) by lra.
  apply Qlt_shift_div_r; [done|].
  rewrite two_pow_inject by lia. rewrite <- two_pow_plus.
  eapply Qlt_le_trans; [exact Hhi|]. apply two_pow_le. lia.
Qed.

(** What [fl] gives is a double: [fl] leaves it as it is. *)
Lemma fl_idempotent (x : Q) : fl (fl x) = fl x.
Proof.
  destruct (Qeq_dec x 0) as [H0|Hx]; [by rewrite (fl_zero x H0)|].
  rewrite (fl_value x Hx). cbv zeta.
  assert (Hr : ~ (Qred x == 0)%Q) by (by rewrite Qred_correct).
  pose proof (significand_bound (Qred x) Hr) as Hm. cbv zeta in Hm.
  set (e := Z.max (binade (Qred x) - 52) (-1074)) in *.
  set (m := round_half_even (Qred x / 2 ^ e)) in *.
  set (z := (inject_Z m * 2 ^ e)%Q).
  rewrite (fl_comp (Qred z) z (Qred_correct z)).
  pose proof (two_pow_pos e) as He.
  destruct (Z.eq_dec m 0) as [Hm0|Hm0].
  { assert (H : (z == 0)%Q) by (unfold z; rewrite Hm0; ring).
    rewrite (fl_zero z H). symmetry. apply (Qred_complete z 0 H). }
  assert (Hz : ~ (z == 0)%Q).
  { unfold z. intros H. apply Qmult_integral in H as [H|H]; [|lra].
    apply Hm0. unfold Qeq in H. simpl in H. lia. }
  rewrite (fl_value z Hz). cbv zeta. apply Qred_complete.
  assert (Hrz : ~ (Qred z == 0)%Q) by (by rewrite Qred_correct).
  assert (Hb : binade (Qred z) = Z.log2 (Z.abs m) + e).
  { apply (binade_unique (Qabs z)).
    - rewrite <- (Qred_correct z) at 2 3. by apply binade_spec.
    - destruct (Zlog2_bounds (Z.abs m) ltac:(lia)) as [H1 H2].
      unfold z. rewrite Qabs_Qmult, (Qabs_pos (2 ^ e)) by lra.
      assert (Ha : (Qabs (inject_Z m) == inject_Z (Z.abs m))%Q).
      { unfold Qabs, inject_Z. reflexivity. }
      rewrite Ha.
      replace (Z.log2 (Z.abs m) + e + 1) with (Z.log2 (Z.abs m) + 1 + e) by lia.
      rewrite !two_pow_plus in *. change (2 ^ 1)%Q with 2%Q in *.
      split; nra. }
  rewrite Hb.
  set (e' := Z.max (Z.log2 (Z.abs m) + e - 52) (-1074)).
  pose proof (two_pow_pos e') as He'.
  assert (Hk : exists k : Z, (z == inject_Z k * 2 ^ e')%Q).
  { destruct (Z.eq_dec (Z.abs m) (2 ^ 53)) as [Htop|Htop].
    - exists (m / 2). assert (Hl : Z.log2 (Z.abs m) = 53).
      { rewrite Htop. by apply Z.log2_pow2. }
      assert (He1 : e' = e + 1) by (unfold e', e in *; lia).
      assert (Hm2 : m = 2 * (m / 2)).
      { assert (Hc : m = 2 ^ 53 \/ m = - 2 ^ 53) by lia.
        destruct Hc as [-> | ->]; reflexivity. }
      unfold z. rewrite He1, two_pow_plus. change (2 ^ 1)%Q with 2%Q.
      rewrite Hm2 at 1. rewrite inject_Z_mult. change (inject_Z 2) with 2%Q.
      ring.
    - assert (Hl : Z.log2 (Z.abs m) < 53).
      { apply Z.log2_lt_pow2; lia. }
      assert (Hle : e' <= e) by (unfold e', e in *; lia).
      exists (m * 2 ^ (e - e')). rewrite inject_Z_mult.
      rewrite two_pow_inject by lia. unfold z.
      rewrite <- Qmult_assoc, <- two_pow_plus.
      by replace (e - e' + e') with e by lia. }
  destruct Hk as [k Hk].
  assert (Hq : (Qred z / 2 ^ e' == inject_Z k)%Q).
  { rewrite Qred_correct, Hk. field. lra. }
  rewrite (round_half_even_comp _ _ Hq), round_half_even_inject.
  by rewrite Hk.
Qed.

Lemma binade_comp (x y : Q) :
  ~ (x == 0)%Q -> (x == y)%Q -> binade x = binade y.
Proof.
  intros Hx Hxy. apply (binade_unique (Qabs x)); [by apply binade_spec|].
  rewrite Hxy. apply binade_spec. by rewrite <- Hxy.
Qed.

(** [fl] rounds to the nearest number with a significand of 53 bits, ties
    to the even significand: for [x] in the binade of exponent [b], the
    result is [m * 2 ^ e] for [e] the greater of [b - 52] and [-1074] and
    [m] the integer nearest to [x / 2 ^ e], the even one of two that are
    equally near. *)
Lemma fl_spec (x : Q) :
  ~ (x == 0)%Q ->
  let e := Z.max (binade x - 52) (-1074) in
  exists m : Z,
    (fl x == inject_Z m * 2 ^ e)%Q /\
    Z.abs m <= 2 ^ 53 /\
    (Qabs (inject_Z m - x / 2 ^ e) <= 1 # 2)%Q /\
    ((Qabs (inject_Z m - x / 2 ^ e) == 1 # 2)%Q -> Z.even m = true).
Proof.
  intros Hx e. rewrite (fl_value x Hx). cbv zeta.
  assert (Hr : ~ (Qred x == 0)%Q) by (by rewrite Qred_correct).
  assert (Hb : binade (Qred x) = binade x).
  { apply binade_comp; [done|apply Qred_correct]. }
  pose proof (significand_bound (Qred x) Hr) as Hm. cbv zeta in Hm.
  rewrite Hb in *. fold e in Hm |- *.
  assert (Hq : (Qred x / 2 ^ e == x / 2 ^ e)%Q) by (by rewrite Qred_correct).
  rewrite (round_half_even_comp _ _ Hq) in *.
  exists (round_half_even (x / 2 ^ e)).
  split; [apply Qred_correct|]. split; [done|]. split.
  - apply round_half_even_near.
  - apply round_half_even_tie.
Qed.

(** Some doubles, as [float.as_integer_ratio] gives them: 0.1, a third,
    and the two ties next above [2 ^ 53]; and the least subnormal double,
    with half of it going to 0. *)
Lemma fl_values :
  fl (1 # 10) = (3602879701896397 # 36028797018963968)%Q /\
  fl (1 # 3) = (6004799503160661 # 18014398509481984)%Q /\
  fl (inject_Z (2 ^ 53 + 1)) = inject_Z (2 ^ 53) /\
  fl (inject_Z (2 ^ 53 + 3)) = inject_Z (2 ^ 53 + 4) /\
  fl (1 # Z.to_pos (2 ^ 1074)) = (1 # Z.to_pos (2 ^ 1074))%Q /\
  fl (1 # Z.to_pos (2 ^ 1075)) = 0%Q.
Proof. repeat split; vm_compute; reflexivity. Qed.

Lemma py_round_comp (x y : Q) (n : nat) :
  (x == y)%Q -> py_round x n = py_round y n.
Proof. intros H. unfold py_round. by rewrite (fl_comp x y H). Qed.

(** [round] of a double [x]. *)
Lemma py_round_double (x : Q) (n : nat) :
  fl x = x ->
  py_round x n
  = fl (Qmake (round_half_even (x * inject_Z (10 ^ Z.of_nat n)))
              (Z.to_pos (10 ^ Z.of_nat n))).
Proof. intros Hx. unfold py_round. by rewrite Hx. Qed.

(** The average of a single double is that double. *)
Lemma average_singleton (d : Q) : fl d = d -> average [d] = d.
Proof.
  intros Hd. unfold average, py_sum, fdiv, fadd. cbn [fold_left length].
  change (fl 0) with 0%Q. rewrite Hd.
  rewrite (fl_comp (0 + d) d) by ring. rewrite Hd, Hd.
  change (float_of_int (Z.of_nat 1)) with 1%Q. change (fl 1) with 1%Q.
  rewrite (fl_comp (d / 1) d) by (field; discriminate). done.
Qed.

Lemma retained_length (d : Q) (q : Queue) :
  0 < DURATION_HISTORY_SIZE q -> (0 < length (retained d q))%nat.
Proof.
  intros Hsize. unfold retained.
  destruct (Z.ltb_spec (DURATION_HISTORY_SIZE q)
              (Z.of_nat (length (DURATION_HISTORY q ++ [d])))) as [Hlt|Hge].
  - destruct (DURATION_HISTORY q ++ [d]) as [|x l]; simpl in *; lia.
  - rewrite length_app. simpl. lia.
Qed.

Lemma retained_last (d : Q) (q : Queue) :
  0 < DURATION_HISTORY_SIZE q -> list.last (retained d q) = Some d.
Proof.
  intros Hsize. unfold retained.
  destruct (Z.ltb_spec (DURATION_HISTORY_SIZE q)
              (Z.of_nat (length (DURATION_HISTORY q ++ [d])))) as [Hlt|Hge].
  - destruct (DURATION_HISTORY q) as [|x [|y l]]; simpl in *; try lia.
    + done.
    + change (y :: l ++ [d]) with ((y :: l) ++ [d]). by rewrite last_snoc.
  - by rewrite last_snoc.
Qed.

Lemma update_estimation_returns (d : Q) (q : Queue) :
  MAX_THREAD_COUNT q <> 0 -> 0 < DURATION_HISTORY_SIZE q ->
  update_estimation d q
  = Ret tt (set_ESTIMATION
              (py_round (fadd (fdiv (average (retained d q))
                                    (float_of_int (MAX_THREAD_COUNT q)))
                              d) 2)
              (set_DURATION_HISTORY (retained d q) q)).
Proof.
  intros Hc Hsize. rewrite update_estimation_eq. cbv zeta.
  pose proof (retained_length d q Hsize) as Hlen.
  destruct (Nat.eqb_spec (length (retained d q)) 0) as [H0|_]; [lia|].
  by destruct (Z.eqb_spec (MAX_THREAD_COUNT q) 0) as [H0|_].
Qed.

(** C3, as the code has it: with a concurrency count other than zero and
    a window of at least one entry, [update_estimation] returns; the history
    it keeps ends with the duration just recorded, and the estimation it
    stores is [round(x, 2)] for the double [x] that float arithmetic gives
    for the average of that history divided by [MAX_THREAD_COUNT], plus
    that duration.  The estimation is a double: the one nearest to
    [k / 100] for the integer [k] nearest to [100 * x], the even one of
    two that are equally near.  When the history kept holds the same
    duration [d] throughout and its average comes out as [d], this is
    [d / MAX_THREAD_COUNT + d] in float arithmetic, rounded to two
    decimals. *)
Theorem update_estimation_eta (d : Q) (q : Queue) :
  MAX_THREAD_COUNT q <> 0 -> 0 < DURATION_HISTORY_SIZE q ->
  exists q',
    update_estimation d q = Ret tt q' /\
    DURATION_HISTORY q' = retained d q /\
    list.last (DURATION_HISTORY q') = Some d /\
    MAX_THREAD_COUNT q' = MAX_THREAD_COUNT q /\
    let x := fadd (fdiv (average (DURATION_HISTORY q'))
                        (float_of_int (MAX_THREAD_COUNT q')))
                  d in
    ESTIMATION q' = py_round x 2 /\
    fl (ESTIMATION q') = ESTIMATION q' /\
    (exists k : Z,
       ESTIMATION q' = fl (k # 100) /\
       (Qabs (inject_Z k - x * 100) <= 1 # 2)%Q /\
       ((Qabs (inject_Z k - x * 100) == 1 # 2)%Q -> Z.even k = true)) /\
    (forall n,
       DURATION_HISTORY q' = replicate (S n) d ->
       average (replicate (S n) d) = d ->
       ESTIMATION q'
       = py_round (fadd (fdiv d (float_of_int (MAX_THREAD_COUNT q'))) d) 2).
Proof.
  intros Hc Hsize. rewrite update_estimation_returns by done.
  eexists. split; [done|].
  cbn [DURATION_HISTORY MAX_THREAD_COUNT ESTIMATION set_ESTIMATION
       set_DURATION_HISTORY].
  split; [done|]. split; [by apply retained_last|].
  split; [done|]. cbv zeta. split; [done|]. split; [|split].
  - apply fl_idempotent.
  - rewrite py_round_double by apply fl_idempotent.
    eexists. split; [reflexivity|]. split.
    + apply round_half_even_near.
    + apply round_half_even_tie.
  - intros n Hn Havg. by rewrite Hn, Havg.
Qed.

(** C3, the claim as it stands fails: with four jobs at a time and a
    window of three durations, after three jobs of 0.78 seconds each the
    window is full of that one duration, and the estimation stored is 0.97.
    The sum of the three doubles is the double 2.34, their average comes
    out as 0.7799999999999999 and not as 0.78, and a quarter of it plus
    0.78 is the double nearest to 0.975, which lies below 0.975.
    [round(0.78 / 4 + 0.78, 2)] is 0.98: in float arithmetic, on the exact
    value of the double 0.78, and on the decimal 0.78 alike.  A fourth job
    of 0.78 seconds leaves the window and the estimation as they are. *)
Lemma update_estimation_equal_durations :
  let q := three_short_jobs in
  let q' := exec (call_update_estimation short_job) q in
  DURATION_HISTORY_SIZE q = 3 /\ MAX_THREAD_COUNT q = 4 /\
  DURATION_HISTORY q = replicate 3 short_job /\
  ESTIMATION q = fl (97 # 100) /\
  ~ (average (replicate 3 short_job) == short_job)%Q /\
  update_estimation short_job q = Ret tt q' /\
  DURATION_HISTORY q' = replicate 3 short_job /\
  ESTIMATION q' = fl (97 # 100) /\
  py_round (fadd (fdiv short_job (float_of_int 4)) short_job) 2
  = fl (98 # 100) /\
  round_half_even ((short_job / 4 + short_job) * 100) = 98 /\
  round_half_even (((78 # 100) / 4 + (78 # 100)) * 100) = 98 /\
  ~ (fl (97 # 100) == fl (98 # 100))%Q.
Proof. cbv zeta. repeat split; vm_compute; congruence. Qed.

(** The estimations after jobs of 2.87, 0.25 and 0.9 seconds, four at a
    time, as Python stores them.  The last one depends on the order of the
    additions in [sum]: from the right, it would be 1.23. *)
Lemma update_estimation_values :
  let q0 := configure_queue "http://localhost:7860/" true 4 30 5 100
              Queue_class in
  let q1 := exec (call_update_estimation (fl (287 # 100))) q0 in
  let q2 := exec (call_update_estimation (fl (25 # 100))) q1 in
  let q3 := exec (call_update_estimation (fl (9 # 10))) q2 in
  ESTIMATION q1 = fl (359 # 100) /\
  ESTIMATION q2 = fl (64 # 100) /\
  ESTIMATION q3 = fl (124 # 100) /\
  DURATION_HISTORY q3 = [fl (287 # 100); fl (25 # 100); fl (9 # 10)].
Proof. cbv zeta. repeat split; vm_compute; reflexivity. Qed.

(** ** The coroutines *)

Lemma process_event_split (event : eid) (w : World) :
  process_event event w
  = (gather_event_data event ;;; process_event_from_start event)%py w.
Proof. reflexivity. Qed.

Lemma next_send_sent (ev : Event) :
  next_send (sent ev)
  = send_json_returns (websocket ev) (S (sends (websocket ev))).
Proof. reflexivity. Qed.

(** [gather_event_data] when the payload is there. *)
Lemma gather_event_data_present (event : eid) (w : World) :
  truthy (data (objs w event)) = true -> gather_event_data event w = Ret tt w.
Proof.
  intros H. unfold gather_event_data, bind, get_data, gets, ret.
  by rewrite H.
Qed.

(** [gather_event_data] when ["send_data"] cannot be sent. *)
Lemma gather_event_data_dead (event : eid) (w : World) :
  truthy (data (objs w event)) = false ->
  next_send (objs w event) = false ->
  exists w1,
    gather_event_data event w = Ret tt w1 /\
    trace w1 = trace w ++ [send_json event msg_send_data false] /\
    cls w1 = final (clean_event event (cls w)) /\
    env w1 = env w /\ clock_reads w1 = clock_reads w /\
    objs w1 event = sent (objs w event).
Proof.
  intros Hd Hs. destruct w as [q o t k v].
  unfold gather_event_data, bind, get_data, gets, ret. world_simpl.
  rewrite Hd. cbn [negb]. unfold send_message. world_simpl.
  rewrite Hs. cbn [negb]. unfold on_cls. rewrite clean_event_Ret.
  world_simpl. eexists. split; [done|]. world_simpl.
  by rewrite clean_event_Ret.
Qed.

(** [gather_event_data] when ["send_data"] is sent: whatever
    [get_message] returns becomes the payload. *)
Lemma gather_event_data_received (event : eid) (w : World) :
  truthy (data (objs w event)) = false ->
  next_send (objs w event) = true ->
  exists w1,
    gather_event_data event w = Ret tt w1 /\
    trace w1 = trace w ++ [send_json event msg_send_data true;
                           receive_json event (next_receive (objs w event))] /\
    cls w1 = cls w /\
    env w1 = env w /\ clock_reads w1 = clock_reads w /\
    objs w1 event
    = with_data (default JNull (next_receive (objs w event)))
        (received (sent (objs w event))).
Proof.
  intros Hd Hs. destruct w as [q o t k v].
  unfold gather_event_data, bind, get_data, gets, ret. world_simpl.
  rewrite Hd. cbn [negb]. unfold send_message. world_simpl.
  rewrite Hs. cbn [negb]. unfold get_message, set_data, modify.
  repeat world_simpl. eexists. split; [done|]. world_simpl.
  rewrite <- app_assoc. done.
Qed.

Lemma clean_event_frame (event : eid) (q : Queue) :
  let q' := final (clean_event event q) in
  q' = set_EVENT_QUEUE (EVENT_QUEUE q') q.
Proof.
  rewrite clean_event_Ret. simpl.
  destruct (py_remove event (EVENT_QUEUE q)); [done|].
  by rewrite set_EVENT_QUEUE_same.
Qed.

(** [gather_event_data] always returns, and writes nothing of the class
    but the pending queue. *)
Lemma gather_event_data_frame (event : eid) (w : World) :
  exists w1,
    gather_event_data event w = Ret tt w1 /\
    cls w1 = set_EVENT_QUEUE (EVENT_QUEUE (cls w1)) (cls w) /\
    env w1 = env w /\ clock_reads w1 = clock_reads w.
Proof.
  destruct (truthy (data (objs w event))) eqn:Hd.
  - exists w. split; [by apply gather_event_data_present|].
    by rewrite set_EVENT_QUEUE_same.
  - destruct (next_send (objs w event)) eqn:Hs.
    + destruct (gather_event_data_received event w Hd Hs)
        as (w1 & Hrun & _ & Hcls & Henv & Hclock & _).
      exists w1. rewrite Hcls. by rewrite set_EVENT_QUEUE_same.
    + destruct (gather_event_data_dead event w Hd Hs)
        as (w1 & Hrun & _ & Hcls & Henv & Hclock & _).
      exists w1. rewrite Hcls. repeat split; try done.
      apply clean_event_frame.
Qed.

(** [process_event] when ["process_starts"] cannot be sent. *)
Lemma process_event_from_start_dead (event : eid) (w : World) i :
  next_send (objs w event) = false ->
  py_index (Some event) (ACTIVE_JOBS (cls w)) = Some i ->
  exists w',
    process_event_from_start event w = Ret tt w' /\
    trace w' = trace w ++ [send_json event msg_process_starts false] /\
    cls w' = set_ACTIVE_JOBS (<[i := None]> (ACTIVE_JOBS (cls w))) (cls w).
Proof.
  intros Hs Hi. destruct w as [q o t k v].
  unfold process_event_from_start, bind. unfold send_message. world_simpl.
  rewrite Hs. cbn [negb]. unfold on_cls, clean_job. world_simpl.
  rewrite Hi. eexists. split; [done|]. world_simpl. done.
Qed.

(** [process_event] when ["process_starts"] is sent and the estimation
    can be updated: the job runs up to [websocket.close], and [clean_job]
    follows unless [close] was called and raised. *)
Lemma process_event_from_start_runs (event : eid) (w : World) :
  next_send (objs w event) = true ->
  MAX_THREAD_COUNT (cls w) <> 0 -> 0 < DURATION_HISTORY_SIZE (cls w) ->
  let out :=
    default JNull
      (backend (env w) (predict_url (cls w)) (data (objs w event))) in
  let delivered := next_send (sent (objs w event)) in
  let t0 := clock (env w) (clock_reads w) in
  let t1 := clock (env w) (S (clock_reads w)) in
  exists w1,
    trace w1 = trace w
      ++ [send_json event msg_process_starts true;
          time_time t0;
          Request_POST (predict_url (cls w)) (data (objs w event)) (Some out);
          time_time t1;
          send_json event (msg_process_completed out) delivered]
      ++ (if delivered then [websocket_close event 1000] else []) /\
    cls w1 = final (update_estimation (py_round (fsub t1 t0) 3) (cls w)) /\
    process_event_from_start event w
    = if delivered && negb (close_returns (websocket (objs w event)))
      then Raise RuntimeError w1
      else on_cls (clean_job event) w1.
Proof.
  intros Hs Hc Hsize. destruct w as [q o t k v].
  unfold process_event_from_start, bind. unfold send_message. world_simpl.
  rewrite Hs. cbn [negb]. unfold get_data, time, Request. unfold gets.
  repeat world_simpl. unfold predict_url in *.
  unfold on_cls at 1. world_simpl.
  rewrite (update_estimation_returns _ q Hc Hsize).
  repeat world_simpl.
  destruct (next_send (sent (o event))) eqn:Hd; cbn [andb negb].
  - unfold disconnect. repeat world_simpl.
    destruct (close_returns (websocket (o event))) eqn:Hclose; cbn [negb];
      (eexists; split; [|split; [|reflexivity]]); world_simpl; cbn [final];
      rewrite <- ?app_assoc; done.
  - unfold ret. eexists. split; [|split; [|reflexivity]]; world_simpl;
      cbn [final]; rewrite <- ?app_assoc; done.
Qed.

(** The slots after [update_estimation]. *)
Lemma update_estimation_slots (d : Q) (q : Queue) :
  ACTIVE_JOBS (final (update_estimation d q)) = ACTIVE_JOBS q.
Proof. by destruct (update_estimation_frame d q) as (_ & -> & _). Qed.

(** [clean_job] for an event in a slot, and for an event in none. *)
Lemma on_cls_clean_job_Ret (event : eid) (w : World) i :
  py_index (Some event) (ACTIVE_JOBS (cls w)) = Some i ->
  on_cls (clean_job event) w
  = Ret tt (set_cls (set_ACTIVE_JOBS (<[i := None]> (ACTIVE_JOBS (cls w)))
                       (cls w)) w).
Proof. intros Hi. unfold on_cls, clean_job. by rewrite Hi. Qed.

Lemma on_cls_clean_job_Raise (event : eid) (w : World) :
  py_index (Some event) (ACTIVE_JOBS (cls w)) = None ->
  on_cls (clean_job event) w = Raise ValueError w.
Proof.
  intros Hi. unfold on_cls, clean_job. rewrite Hi. by rewrite set_cls_same.
Qed.

(** What [gather_event_data] leaves of the class. *)
Lemma after_gather_cls (event : eid) (w : World) :
  let w1 := after_gather event w in
  ACTIVE_JOBS (cls w1) = ACTIVE_JOBS (cls w) /\
  predict_url (cls w1) = predict_url (cls w) /\
  MAX_THREAD_COUNT (cls w1) = MAX_THREAD_COUNT (cls w) /\
  DURATION_HISTORY_SIZE (cls w1) = DURATION_HISTORY_SIZE (cls w) /\
  DURATION_HISTORY (cls w1) = DURATION_HISTORY (cls w) /\
  env w1 = env w /\ clock_reads w1 = clock_reads w.
Proof.
  cbv zeta. unfold after_gather.
  destruct (gather_event_data_frame event w)
    as (w1 & -> & Hcls & Henv & Hclock).
  cbn [final]. rewrite Hcls. done.
Qed.

Lemma after_gather_frame (event : eid) (w : World) :
  gather_event_data event w = Ret tt (after_gather event w) /\
  cls (after_gather event w)
  = set_EVENT_QUEUE (EVENT_QUEUE (cls (after_gather event w))) (cls w) /\
  env (after_gather event w) = env w /\
  clock_reads (after_gather event w) = clock_reads w.
Proof.
  unfold after_gather.
  destruct (gather_event_data_frame event w) as (w1 & -> & H). done.
Qed.

Lemma process_event_after_gather (event : eid) (w : World) :
  process_event event w = process_event_from_start event (after_gather event w).
Proof.
  rewrite process_event_split. unfold bind.
  destruct (after_gather_frame event w) as (-> & _). done.
Qed.

(** [process_event] when ["process_starts"] is sent and the estimation
    can be updated. *)
Lemma process_event_runs (event : eid) (w : World) :
  let w1 := after_gather event w in
  let out :=
    default JNull
      (backend (env w) (predict_url (cls w)) (data (objs w1 event))) in
  let delivered := next_send (sent (objs w1 event)) in
  let t0 := clock (env w) (clock_reads w) in
  let t1 := clock (env w) (S (clock_reads w)) in
  next_send (objs w1 event) = true ->
  MAX_THREAD_COUNT (cls w) <> 0 -> 0 < DURATION_HISTORY_SIZE (cls w) ->
  exists w2,
    trace w2 = trace w1
      ++ [send_json event msg_process_starts true;
          time_time t0;
          Request_POST (predict_url (cls w)) (data (objs w1 event)) (Some out);
          time_time t1;
          send_json event (msg_process_completed out) delivered]
      ++ (if delivered then [websocket_close event 1000] else []) /\
    ACTIVE_JOBS (cls w2) = ACTIVE_JOBS (cls w) /\
    DURATION_HISTORY (cls w2) = retained (py_round (fsub t1 t0) 3) (cls w) /\
    process_event event w
    = if delivered && negb (close_returns (websocket (objs w1 event)))
      then Raise RuntimeError w2
      else on_cls (clean_job event) w2.
Proof.
  intros w1 out delivered t0 t1 Hs Hc Hsize.
  destruct (after_gather_cls event w)
    as (Hslots & Hurl & Hmax & Hsz & Hh & Henv & Hclock).
  fold w1 in Hslots, Hurl, Hmax, Hsz, Hh, Henv, Hclock.
  destruct (process_event_from_start_runs event w1)
    as (w2 & Htrace & Hcls & Hrun); [done|by rewrite Hmax|by rewrite Hsz|].
  exists w2. rewrite process_event_after_gather. fold w1.
  rewrite Henv, Hclock, Hurl in Htrace. rewrite Henv, Hclock in Hcls.
  split; [exact Htrace|]. split; [|split; [|exact Hrun]].
  - by rewrite Hcls, update_estimation_slots.
  - rewrite Hcls, update_estimation_returns by (by rewrite ?Hmax, ?Hsz).
    cbn [final DURATION_HISTORY set_ESTIMATION set_DURATION_HISTORY].
    unfold retained. by rewrite Hh, Hsz.
Qed.

(** ** The end of a job *)



(** ** A client that is gone *)

(** C4, as the code has it: when ["send_data"] cannot be sent for an
    event in a slot, [gather_event_data] takes the event out of the pending
    queue (if it is there) and returns, and [process_event] goes on to
    send ["process_starts"]; when that cannot be sent either, the slot is
    set back to [None] and [process_event] returns: nothing else is sent,
    the backend is not called and the estimation is not touched. *)
Theorem process_event_client_gone (event : eid) (w : World) :
  Some event ∈ ACTIVE_JOBS (cls w) ->
  truthy (data (objs w event)) = false ->
  next_send (objs w event) = false ->
  next_send (sent (objs w event)) = false ->
  exists w' i,
    process_event event w = Ret tt w' /\
    trace w' = trace w ++ [send_json event msg_send_data false;
                           send_json event msg_process_starts false] /\
    py_index (Some event) (ACTIVE_JOBS (cls w)) = Some i /\
    cls w' = set_ACTIVE_JOBS (<[i := None]> (ACTIVE_JOBS (cls w)))
               (final (clean_event event (cls w))).
Proof.
  intros Hin Hd Hs1 Hs2.
  destruct (py_index_is_Some _ _ Hin) as [i Hi].
  destruct (gather_event_data_dead event w Hd Hs1)
    as (w1 & Hrun & Htrace & Hcls & _ & _ & Hobj).
  assert (Hslots : ACTIVE_JOBS (cls w1) = ACTIVE_JOBS (cls w)).
  { rewrite Hcls, clean_event_frame. done. }
  destruct (process_event_from_start_dead event w1 i) as (w' & Hrun' & Ht & Hc).
  - by rewrite Hobj.
  - by rewrite Hslots.
  - exists w', i. rewrite process_event_split. unfold bind. rewrite Hrun.
    split; [done|]. split.
    + rewrite Ht, Htrace, <- app_assoc. done.
    + split; [done|]. by rewrite Hc, Hslots, Hcls.
Qed.

(** C4, the claim as it stands fails: with event 0 in the slot and a
    client that is gone, ["process_starts"] is tried on the websocket after
    the failed ["send_data"]; and on a websocket whose first [send_json]
    alone raises, ["process_starts"] is sent and the job runs to its
    end. *)
Lemma process_event_sends_after_failed_fetch :
  let w := world_of one_admitted gone_websocket answering_env in
  let w2 := world_of one_admitted once_failing_websocket answering_env in
  Some 0%nat ∈ ACTIVE_JOBS (cls w) /\
  next_send (objs w 0%nat) = false /\
  trace (final (process_event 0%nat w))
  = [send_json 0%nat msg_send_data false;
     send_json 0%nat msg_process_starts false] /\
  next_send (objs w2 0%nat) = false /\
  trace (final (process_event 0%nat w2))
  = [send_json 0%nat msg_send_data false;
     send_json 0%nat msg_process_starts true;
     time_time 0;
     Request_POST "Noneapi/predict" JNull (Some example_output);
     time_time 1;
     send_json 0%nat (msg_process_completed example_output) true;
     websocket_close 0%nat 1000].
Proof.
  cbv zeta. split; [vm_compute; left|]. repeat split; vm_compute; reflexivity.
Qed.

(** ** A failed receive *)

Lemma gather_event_data_failed_receive (event : eid) (w : World) :
  truthy (data (objs w event)) = false ->
  next_send (objs w event) = true ->
  next_receive (objs w event) = None ->
  exists w1,
    gather_event_data event w = Ret tt w1 /\
    cls w1 = cls w /\
    data (objs w1 event) = JNull /\
    trace w1 = trace w ++ [send_json event msg_send_data true;
                           receive_json event None].
Proof.
  intros Hd Hs Hr.
  destruct (gather_event_data_received event w Hd Hs)
    as (w1 & Hrun & Htrace & Hcls & _ & _ & Hobj).
  exists w1. rewrite Hr in Htrace, Hobj. rewrite Hobj. done.
Qed.

(** C5, what the code does: event 1 is pending, its websocket takes
    ["send_data"] and [receive_json] raises.  [gather_event_data] returns
    with the event still in the pending queue and without payload, and the
    next [gather_event_data] asks and receives again. *)
Theorem gather_event_data_keeps_job_after_failed_receive :
  let w := world_of one_admitted_one_pending mute_websocket answering_env in
  let w1 := final (gather_event_data 1%nat w) in
  let w2 := final (gather_event_data 1%nat w1) in
  EVENT_QUEUE (cls w) = [1%nat] /\
  trace w1 = [send_json 1%nat msg_send_data true; receive_json 1%nat None] /\
  EVENT_QUEUE (cls w1) = [1%nat] /\
  data (objs w1 1%nat) = JNull /\
  trace w2 = [send_json 1%nat msg_send_data true; receive_json 1%nat None;
              send_json 1%nat msg_send_data true; receive_json 1%nat None] /\
  EVENT_QUEUE (cls w2) = [1%nat].
Proof. cbv zeta. repeat split; vm_compute; reflexivity. Qed.

(** ** A backend call that fails *)

(** C6, as the code has it: when the backend call fails, the job goes on
    as after any answer.  With a concurrency count other than zero and a
    window of at least one entry, the duration of the call is recorded in
    the history, and ["process_completed"] is sent with the output [None],
    followed by [websocket.close] when it was sent: no other message goes
    to the client, and nothing but the duration is recorded.  For an event
    in a slot, [process_event] returns with the slot set back to [None]
    unless [close] was called and raised. *)
Theorem process_event_backend_fails (event : eid) (w : World) :
  let w1 := after_gather event w in
  let delivered := next_send (sent (objs w1 event)) in
  let t0 := clock (env w) (clock_reads w) in
  let t1 := clock (env w) (S (clock_reads w)) in
  next_send (objs w1 event) = true ->
  backend (env w) (predict_url (cls w)) (data (objs w1 event)) = None ->
  MAX_THREAD_COUNT (cls w) <> 0 -> 0 < DURATION_HISTORY_SIZE (cls w) ->
  let w' := final (process_event event w) in
  trace w' = trace w1
    ++ [send_json event msg_process_starts true;
        time_time t0;
        Request_POST (predict_url (cls w)) (data (objs w1 event)) (Some JNull);
        time_time t1;
        send_json event (msg_process_completed JNull) delivered]
    ++ (if delivered then [websocket_close event 1000] else []) /\
  DURATION_HISTORY (cls w') = retained (py_round (fsub t1 t0) 3) (cls w) /\
  (Some event ∈ ACTIVE_JOBS (cls w) ->
   (delivered = true -> close_returns (websocket (objs w1 event)) = true) ->
   exists i,
     py_index (Some event) (ACTIVE_JOBS (cls w)) = Some i /\
     process_event event w = Ret tt w' /\
     ACTIVE_JOBS (cls w') = <[i := None]> (ACTIVE_JOBS (cls w))).
Proof.
  intros w1 delivered t0 t1 Hs Hb Hc Hsize.
  destruct (process_event_runs event w Hs Hc Hsize)
    as (w2 & Htrace & Hslots & Hh & Hrun).
  fold w1 delivered t0 t1 in Htrace, Hh, Hrun. rewrite Hb in Htrace.
  cbn [default] in Htrace.
  assert (Hfinal : trace (final (process_event event w)) = trace w2 /\
                   DURATION_HISTORY (cls (final (process_event event w)))
                   = DURATION_HISTORY (cls w2)).
  { rewrite Hrun.
    destruct (delivered && negb (close_returns (websocket (objs w1 event))));
      [done|].
    unfold on_cls, clean_job.
    by destruct (py_index (Some event) (ACTIVE_JOBS (cls w2))). }
  destruct Hfinal as [Ht' Hh']. cbv zeta.
  split; [by rewrite Ht'|]. split; [by rewrite Hh'|].
  intros Hin Hclose. destruct (py_index_is_Some _ _ Hin) as [i Hi].
  exists i. split; [exact Hi|].
  assert (Hgo : delivered && negb (close_returns (websocket (objs w1 event)))
                = false).
  { destruct delivered; [|done]. by rewrite Hclose. }
  rewrite Hgo, (on_cls_clean_job_Ret event w2 i) in Hrun
    by (by rewrite Hslots).
  rewrite Hrun. cbn [final cls set_cls ACTIVE_JOBS set_ACTIVE_JOBS].
  by rewrite Hslots.
Qed.

(** C6, the claim as it stands fails: event 0 is in the slot, its client
    is there and has sent its payload, and the backend call fails.
    [process_event] returns; the client gets ["process_completed"] with the
    output [None] and the websocket is closed; the history has the duration
    of the failed call, and the slot is free.  The calls are those of a job
    whose backend answered [null]: nothing tells the failure from a
    result. *)
Lemma process_event_backend_failure_not_reported :
  let w := world_of one_admitted (live_websocket example_payload) failing_env in
  let w0 := world_of one_admitted (live_websocket example_payload) null_env in
  backend (env w) "Noneapi/predict" example_payload = None /\
  exists w',
    process_event 0%nat w = Ret tt w' /\
    trace w' = [send_json 0%nat msg_send_data true;
                receive_json 0%nat (Some example_payload);
                send_json 0%nat msg_process_starts true;
                time_time 0;
                Request_POST "Noneapi/predict" example_payload (Some JNull);
                time_time 1;
                send_json 0%nat (msg_process_completed JNull) true;
                websocket_close 0%nat 1000] /\
    msg_process_completed JNull
    = JObj [("msg"%string, JStr "process_completed");
            ("output"%string, JNull)] /\
    ACTIVE_JOBS (cls w') = [None] /\
    DURATION_HISTORY (cls w') = [1%Q] /\
    trace (final (process_event 0%nat w0)) = trace w' /\
    cls (final (process_event 0%nat w0)) = cls w'.
Proof.
  cbv zeta. split; [reflexivity|].
  eexists. split; [vm_compute; reflexivity|].
  repeat split; vm_compute; reflexivity.
Qed.

(** ** The broadcast of the estimation *)

Lemma send_estimation_run (event : eid) (est : Estimation) (w : World) :
  exists w',
    send_estimation event est w = Ret tt w' /\
    trace w' = trace w ++ [send_json event (Estimation_dict est)
                             (next_send (objs w event))].
Proof.
  destruct w as [q o t k v].
  unfold send_estimation, bind, send_message. world_simpl.
  destruct (next_send (o event)); cbn [negb].
  - by eexists.
  - unfold on_cls. rewrite clean_event_Ret. by eexists.
Qed.

Lemma gather_send_estimation (est : Estimation) (l : list eid) (w : World) :
  exists w' oks,
    gather (fun event => send_estimation event est) l w = Ret tt w' /\
    length oks = length l /\
    trace w' = trace w
      ++ zip_with (fun event ok => send_json event (Estimation_dict est) ok)
           l oks.
Proof.
  revert w; induction l as [|event l IH]; intros w.
  - exists w, []. simpl. by rewrite app_nil_r.
  - destruct (send_estimation_run event est w) as (w1 & Hrun & Ht).
    destruct (IH w1) as (w' & oks & Hrun' & Hlen & Ht').
    exists w', (next_send (objs w event) :: oks).
    cbn [gather]. unfold bind. rewrite Hrun. split; [done|].
    split; [simpl; by rewrite Hlen|].
    rewrite Ht', Ht, <- app_assoc. done.
Qed.

Lemma int_validator_floor (x : Q) :
  (0 <= x)%Q -> int_validator x = Qfloor x.
Proof.
  destruct x as [n d]. unfold Qle, int_validator, Qfloor. simpl.
  intros H. apply Z.quot_div_nonneg; lia.
Qed.

(** C10: [broadcast_estimation] returns after one [send_json] per pending
    event, each with the same message; the ["queue_duration"] of that
    message is the integer that the [int] field of [Estimation] makes of
    [ESTIMATION], which for an estimation that is not negative is its
    whole number of seconds, the fraction dropped. *)
Theorem broadcast_estimation_whole_seconds (w : World) :
  let message := estimation_message (cls w) in
  let seconds := int_validator (ESTIMATION (cls w)) in
  exists w' oks,
    broadcast_estimation w = Ret tt w' /\
    length oks = length (EVENT_QUEUE (cls w)) /\
    trace w' = trace w
      ++ zip_with (fun event ok => send_json event message ok)
           (EVENT_QUEUE (cls w)) oks /\
    queue_duration_of message = Some (inject_Z seconds) /\
    ((0 <= ESTIMATION (cls w))%Q ->
     (inject_Z seconds <= ESTIMATION (cls w) < inject_Z seconds + 1)%Q).
Proof.
  intros message seconds.
  destruct (gather_send_estimation (get_estimation (cls w))
              (EVENT_QUEUE (cls w)) w) as (w' & oks & Hrun & Hlen & Ht).
  exists w', oks. split; [|split; [done|split; [done|split; [done|]]]].
  - unfold broadcast_estimation, bind, gets. done.
  - intros Hpos. unfold seconds. rewrite int_validator_floor by done.
    split; [apply Qfloor_le|].
    pose proof (Qlt_floor (ESTIMATION (cls w))) as Hlt.
    rewrite inject_Z_plus in Hlt. exact Hlt.
Qed.

(** ** The coroutines move between reachable states *)

Lemma keeps_bind {A B} (m : M World A) (k : A -> M World B) :
  keeps_reachable m -> (forall a, keeps_reachable (k a)) ->
  keeps_reachable (bind m k).
Proof.
  intros Hm Hk w Hw. unfold bind. specialize (Hm w Hw).
  destruct (m w) as [a s|ex s]; simpl in *; [by apply Hk|done].
Qed.

Lemma keeps_same_cls {A} (m : M World A) :
  (forall w, cls (final (m w)) = cls w) -> keeps_reachable m.
Proof. intros H w Hw. by rewrite H. Qed.

Lemma keeps_on_cls {A} (m : M Queue A) (c : call) :
  (forall q, permitted c q) -> (forall q, final (m q) = exec c q) ->
  keeps_reachable (on_cls m).
Proof.
  intros Hp Hc w Hw. unfold on_cls. specialize (Hc (cls w)).
  destruct (m (cls w)) as [a q|ex q]; simpl in *; subst q;
    by apply reachable_call.
Qed.

Lemma keeps_clean_event (event : eid) :
  keeps_reachable (on_cls (clean_event event)).
Proof. by apply (keeps_on_cls _ (call_clean_event event)). Qed.

Lemma keeps_clean_job (event : eid) :
  keeps_reachable (on_cls (clean_job event)).
Proof. by apply (keeps_on_cls _ (call_clean_job event)). Qed.

Lemma keeps_update_estimation (d : Q) :
  keeps_reachable (on_cls (update_estimation d)).
Proof. by apply (keeps_on_cls _ (call_update_estimation d)). Qed.

Lemma keeps_send_message (event : eid) (m : json) :
  keeps_reachable (send_message event m).
Proof. by apply keeps_same_cls. Qed.

Lemma keeps_gather {A} (f : A -> M World unit) (l : list A) :
  (forall x, keeps_reachable (f x)) -> keeps_reachable (gather f l).
Proof.
  intros Hf. induction l as [|x l IH]; simpl.
  - by apply keeps_same_cls.
  - apply keeps_bind; [apply Hf|]. intros _. apply IH.
Qed.

Lemma keeps_gather_event_data (event : eid) :
  keeps_reachable (gather_event_data event).
Proof.
  unfold gather_event_data. apply keeps_bind; [by apply keeps_same_cls|].
  intros d. destruct (negb (truthy d)); [|by apply keeps_same_cls].
  apply keeps_bind; [apply keeps_send_message|].
  intros [|]; simpl; [|apply keeps_clean_event].
  apply keeps_bind; [by apply keeps_same_cls|].
  intros d'. by apply keeps_same_cls.
Qed.

Lemma keeps_broadcast_estimation : keeps_reachable broadcast_estimation.
Proof.
  unfold broadcast_estimation.
  apply keeps_bind; [by apply keeps_same_cls|]. intros est.
  apply keeps_bind; [by apply keeps_same_cls|]. intros l.
  apply keeps_gather. intros event. unfold send_estimation.
  apply keeps_bind; [apply keeps_send_message|].
  intros [|]; simpl; [by apply keeps_same_cls|apply keeps_clean_event].
Qed.

Lemma keeps_process_event (event : eid) : keeps_reachable (process_event event).
Proof.
  unfold process_event.
  apply keeps_bind; [apply keeps_gather_event_data|]. intros _.
  apply keeps_bind; [apply keeps_send_message|].
  intros [|]; simpl; [|apply keeps_clean_job].
  apply keeps_bind; [by apply keeps_same_cls|]. intros t0.
  apply keeps_bind; [by apply keeps_same_cls|]. intros sp.
  apply keeps_bind; [by apply keeps_same_cls|]. intros d.
  apply keeps_bind.
  { by apply keeps_same_cls. }
  intros out.
  apply keeps_bind; [by apply keeps_same_cls|]. intros t1.
  apply keeps_bind; [apply keeps_update_estimation|]. intros _.
  apply keeps_bind; [apply keeps_send_message|]. intros ok.
  apply keeps_bind; [|intros _; apply keeps_clean_job].
  destruct ok; [|by apply keeps_same_cls].
  apply keeps_same_cls. intros w. unfold disconnect.
  by destruct (close_returns _).
Qed.

(** Every coroutine that [start_processing] starts, run from a reachable
    state of the class, ends in a reachable state, where the invariant
    holds. *)
Lemma run_coro_reachable (c : coro) : keeps_reachable (run_coro c).
Proof.
  destruct c; simpl.
  - apply keeps_process_event.
  - unfold gather_data_for_first_ranks.
    apply keeps_bind; [by apply keeps_same_cls|]. intros l.
    apply keeps_bind; [by apply keeps_same_cls|]. intros n.
    apply keeps_gather, keeps_gather_event_data.
  - apply keeps_broadcast_estimation.
Qed.

Lemma run_coro_invariant (c : coro) (w : World) :
  reachable (cls w) -> dispatcher_invariant (cls (final (run_coro c w))).
Proof.
  intros Hw. apply well_formed_invariant, reachable_well_formed.
  by apply run_coro_reachable.
Qed.

(** ** The theorems at concrete inputs *)

Lemma clean_event_cancel_witness :
  let w := world_of one_admitted_one_pending gone_websocket answering_env in
  exists q',
    on_cls (clean_event 1%nat) w = Ret tt (set_cls q' w) /\
    EVENT_QUEUE q' = [].
Proof.
  cbv zeta.
  destruct (clean_event_cancel 1%nat
              (world_of one_admitted_one_pending gone_websocket answering_env))
    as (q' & Hrun & _ & _ & Hin).
  exists q'. split; [exact Hrun|].
  destruct Hin as (l1 & l2 & Hq & Hnot & Hq'); [vm_compute; left|].
  destruct l1 as [|x l1]; [|destruct l1; discriminate Hq].
  injection Hq as <-. exact Hq'.
Defined.

Lemma fifo_admission_witness :
  (run example_calls Queue_class).2
  ++ EVENT_QUEUE (run example_calls Queue_class).1
  = [0%nat; 1%nat; 2%nat].
Proof.
  apply (proj2 (proj2 (fifo_admission example_calls Queue_class
                         ltac:(repeat constructor)))).
Defined.

Lemma reachable_invariant_witness :
  dispatcher_invariant one_admitted_one_pending.
Proof.
  apply reachable_invariant. unfold one_admitted_one_pending.
  apply reachable_call; [|exact I].
  apply reachable_call.
  - apply reachable_call; [apply reachable_class|].
    split; vm_compute; [apply not_elem_of_nil|].
    intros H. apply list_elem_of_singleton in H. discriminate H.
  - split; vm_compute.
    + intros H. apply list_elem_of_singleton in H. discriminate H.
    + intros H. apply list_elem_of_singleton in H. discriminate H.
Defined.

Lemma update_estimation_eta_witness :
  exists q',
    update_estimation short_job two_short_jobs = Ret tt q' /\
    DURATION_HISTORY q' = replicate 3 short_job /\
    ESTIMATION q' = fl (97 # 100).
Proof.
  destruct (update_estimation_eta short_job two_short_jobs)
    as (q' & Hrun & Hh & _ & Hmax & Heta & _).
  - vm_compute. discriminate.
  - vm_compute. reflexivity.
  - exists q'. split; [exact Hrun|]. split; [exact Hh|].
    rewrite Heta, Hh, Hmax. vm_compute. reflexivity.
Defined.


Lemma process_event_client_gone_witness :
  let w := world_of one_admitted gone_websocket answering_env in
  exists w',
    process_event 0%nat w = Ret tt w' /\
    trace w' = [send_json 0%nat msg_send_data false;
                send_json 0%nat msg_process_starts false] /\
    ACTIVE_JOBS (cls w') = [None].
Proof.
  cbv zeta.
  destruct (process_event_client_gone 0%nat
              (world_of one_admitted gone_websocket answering_env))
    as (w' & i & Hrun & Htrace & Hi & Hcls).
  - vm_compute. left.
  - vm_compute. reflexivity.
  - vm_compute. reflexivity.
  - vm_compute. reflexivity.
  - exists w'. split; [exact Hrun|]. split; [exact Htrace|].
    vm_compute in Hi. injection Hi as <-. rewrite Hcls.
    vm_compute. reflexivity.
Defined.

Lemma process_event_backend_fails_witness :
  let w := world_of one_admitted (live_websocket example_payload)
             failing_env in
  let w' := final (process_event 0%nat w) in
  process_event 0%nat w = Ret tt w' /\
  trace w' = [send_json 0%nat msg_send_data true;
              receive_json 0%nat (Some example_payload);
              send_json 0%nat msg_process_starts true;
              time_time 0;
              Request_POST "Noneapi/predict" example_payload (Some JNull);
              time_time 1;
              send_json 0%nat (msg_process_completed JNull) true;
              websocket_close 0%nat 1000] /\
  ACTIVE_JOBS (cls w') = [None].
Proof.
  cbv zeta.
  destruct (process_event_backend_fails 0%nat
              (world_of one_admitted (live_websocket example_payload)
                 failing_env))
    as (Htrace & _ & Hslot).
  - vm_compute. reflexivity.
  - vm_compute. reflexivity.
  - vm_compute. discriminate.
  - vm_compute. reflexivity.
  - destruct Hslot as (i & Hi & Hrun & Hslots).
    + vm_compute. left.
    + intros _. vm_compute. reflexivity.
    + split; [exact Hrun|]. split; [exact Htrace|].
      vm_compute in Hi. injection Hi as <-. exact Hslots.
Defined.

Lemma broadcast_estimation_whole_seconds_witness :
  let w := world_of class_with_fraction (live_websocket example_payload)
             answering_env in
  exists w',
    broadcast_estimation w = Ret tt w' /\
    queue_duration_of (estimation_message (cls w)) = Some 1%Q /\
    (1 <= ESTIMATION (cls w) < 2)%Q.
Proof.
  cbv zeta.
  destruct (broadcast_estimation_whole_seconds
              (world_of class_with_fraction (live_websocket example_payload)
                 answering_env))
    as (w' & oks & Hrun & _ & _ & Hfield & Hbound).
  exists w'. split; [exact Hrun|]. split; [exact Hfield|].
  apply Hbound. vm_compute. discriminate.
Defined.

(** * Further properties of the queue *)

(** ** Slots *)

Lemma not_is_Some_None {A} : ~ is_Some (@None A).
Proof. by intros [? ?]. Qed.
Lemma filter_is_Some_insert_Some {A} (l : list (option A)) i (x : A) :
  l !! i = Some None ->
  length (filter is_Some (<[i := Some x]> l))
  = S (length (filter is_Some l)).
Proof.
  revert i; induction l as [|y l IH]; intros i; [done|].
  destruct i as [|i]; simpl.
  - intros [= ->]. by rewrite (filter_cons_False _ None) by apply not_is_Some_None.
  - intros Hi. destruct y as [y|]; simpl.
    + by rewrite IH.
    + rewrite !filter_cons_False by apply not_is_Some_None. by apply IH.
Qed.
Lemma filter_is_Some_insert_None {A} (l : list (option A)) i (x : A) :
  l !! i = Some (Some x) ->
  S (length (filter is_Some (<[i := None]> l)))
  = length (filter is_Some l).
Proof.
  revert i; induction l as [|y l IH]; intros i; [done|].
  destruct i as [|i]; simpl.
  - intros [= ->]. by rewrite (filter_cons_False _ None) by apply not_is_Some_None.
  - intros Hi. destruct y as [y|]; simpl.
    + by rewrite (IH _ Hi).
    + rewrite !filter_cons_False by apply not_is_Some_None. by apply IH.
Qed.

Lemma py_index_first {A} `{EqDecision A} (x : A) l i :
  py_index x l = Some i -> forall j, (j < i)%nat -> l !! j <> Some x.
Proof.
  intros Hi j Hj Hx. destruct (py_index_Some _ _ _ Hi) as [_ Hnot].
  apply Hnot. apply list_elem_of_lookup. exists j.
  by rewrite lookup_take_lt.
Qed.

Lemma py_index_insert_fresh {A} `{EqDecision A} (x : A) l i :
  (i < length l)%nat -> x ∉ l -> py_index x (<[i := x]> l) = Some i.
Proof.
  revert i; induction l as [|y l IH]; intros i Hlen Hnot; simpl in *; [lia|].
  apply not_elem_of_cons in Hnot as [Hne Hnot].
  destruct i as [|i]; simpl.
  - by rewrite decide_True.
  - rewrite decide_False by done. rewrite IH; [done|lia|done].
Qed.

(** X1: a pass of [start_processing] never raises: [pop(0)] and
    [index(None)] are reached only behind their guards.  It admits an
    event exactly when the queue is not stopped, an event is pending and a
    slot is free; in every other case it leaves the class as it is. *)
Theorem start_processing_iter_guarded (q : Queue) :
  exists r q',
    start_processing_iter q = Ret r q' /\
    ((exists event spawned, r = LoopAdmit event spawned)
     <-> STOP q = false /\ EVENT_QUEUE q <> [] /\ None ∈ ACTIVE_JOBS q) /\
    ((forall event spawned, r <> LoopAdmit event spawned) -> q' = q).
Proof.
  destruct (start_processing_iter_cases q)
    as [[Hs H]|[(Hs & Hq & H)|[(Hs & Hq & Hn & H)|
        (e & r & i & Hs & Hq & Hi & H)]]]; rewrite H.
  - do 2 eexists. split; [done|]. split; [|done].
    split; [by intros (? & ? & ?)|]. intros (? & _). congruence.
  - do 2 eexists. split; [done|]. split; [|done].
    split; [by intros (? & ? & ?)|]. intros (_ & ? & _). congruence.
  - do 2 eexists. split; [done|]. split; [|done].
    split; [by intros (? & ? & ?)|]. intros (_ & _ & ?). done.
  - do 2 eexists. split; [done|]. split.
    + split; [|by eauto]. intros _. split; [done|]. split; [by rewrite Hq|].
      destruct (py_index_Some _ _ _ Hi) as [Hl _].
      by eapply list_elem_of_lookup_2.
    + intros Hno. by destruct (Hno e (spawned_on_admit e q)).
Qed.

(** X2: an admitted event is the head of the pending queue and goes into
    the free slot of lowest index; the other slots keep their content, and
    one more slot is occupied. *)
Theorem admission_first_free_slot (q q' : Queue) event spawned :
  start_processing_iter q = Ret (LoopAdmit event spawned) q' ->
  exists i,
    ACTIVE_JOBS q !! i = Some None /\
    (forall j, (j < i)%nat -> ACTIVE_JOBS q !! j <> Some None) /\
    ACTIVE_JOBS q' = <[i := Some event]> (ACTIVE_JOBS q) /\
    occupied q' = S (occupied q) /\
    EVENT_QUEUE q = event :: EVENT_QUEUE q'.
Proof.
  intros Hrun.
  destruct (start_processing_iter_cases q)
    as [[Hs H]|[(Hs & Hq & H)|[(Hs & Hq & Hn & H)|
        (e & r & i & Hs & Hq & Hi & H)]]]; rewrite H in Hrun; try done.
  injection Hrun as <- _ <-.
  destruct (py_index_Some _ _ _ Hi) as [Hl _].
  exists i. split; [done|]. split; [by apply py_index_first|].
  split; [done|]. split; [|done].
  unfold occupied. simpl. by apply filter_is_Some_insert_Some.
Qed.

Lemma admission_first_free_slot_witness :
  exists i,
    ACTIVE_JOBS (configure_queue "http://localhost/" true 2 30 5 100
                   (exec (call_push 7%nat) one_admitted)) !! i = Some None /\
    ACTIVE_JOBS
      (exec call_start_processing_iter
         (configure_queue "http://localhost/" true 2 30 5 100
            (exec (call_push 7%nat) one_admitted)))
    !! i = Some (Some 7%nat).
Proof.
  destruct (admission_first_free_slot
              (configure_queue "http://localhost/" true 2 30 5 100
                 (exec (call_push 7%nat) one_admitted))
              (exec call_start_processing_iter
                 (configure_queue "http://localhost/" true 2 30 5 100
                    (exec (call_push 7%nat) one_admitted)))
              7%nat
              [ProcessEvent 7%nat; GatherDataForFirstRanks;
               BroadcastEstimation])
    as (i & Hi & _ & Hslots & _).
  - vm_compute. reflexivity.
  - exists i. split; [exact Hi|]. rewrite Hslots.
    apply list_lookup_insert_eq. by eapply lookup_lt_Some.
Defined.

(** X3: for an event in a slot, [clean_job] returns: the first slot that
    holds the event is set to [None], every other slot and the pending
    queue stay, and one slot fewer is occupied. *)
Theorem clean_job_releases (event : eid) (q : Queue) :
  Some event ∈ ACTIVE_JOBS q ->
  exists i q',
    clean_job event q = Ret tt q' /\
    ACTIVE_JOBS q !! i = Some (Some event) /\
    (forall j, (j < i)%nat -> ACTIVE_JOBS q !! j <> Some (Some event)) /\
    q' = set_ACTIVE_JOBS (<[i := None]> (ACTIVE_JOBS q)) q /\
    S (occupied q') = occupied q.
Proof.
  intros Hin. destruct (py_index_is_Some _ _ Hin) as [i Hi].
  destruct (py_index_Some _ _ _ Hi) as [Hl _].
  exists i. eexists. unfold clean_job. rewrite Hi.
  split; [done|]. split; [done|]. split; [by apply py_index_first|].
  split; [done|]. unfold occupied. simpl.
  by apply (filter_is_Some_insert_None _ _ event).
Qed.

Lemma clean_job_releases_witness :
  exists q', clean_job 0%nat one_admitted = Ret tt q' /\ occupied q' = 0%nat.
Proof.
  destruct (clean_job_releases 0%nat one_admitted)
    as (i & q' & Hrun & _ & _ & _ & Hocc).
  - vm_compute. left.
  - exists q'. split; [exact Hrun|].
    change (occupied one_admitted) with 1%nat in Hocc. by injection Hocc.
Defined.

Lemma release_removes (l : list (option eid)) event i :
  (forall a b, l !! a = Some (Some event) -> l !! b = Some (Some event) ->
               a = b) ->
  l !! i = Some (Some event) -> Some event ∉ <[i := None]> l.
Proof.
  intros Huniq Hi Hin. apply list_elem_of_lookup in Hin as [j Hj].
  apply list_lookup_insert_Some in Hj as [(_ & ? & _)|[Hne Hj]]; [done|].
  apply Hne. by apply Huniq.
Qed.

(** X4: [clean_job] for an event that is in no slot raises [ValueError]
    and changes nothing.  So when every event has at most one slot, a
    second [clean_job] for the same event raises. *)
Theorem clean_job_twice_raises (event : eid) (q q' : Queue) :
  (forall a b, ACTIVE_JOBS q !! a = Some (Some event) ->
               ACTIVE_JOBS q !! b = Some (Some event) -> a = b) ->
  clean_job event q = Ret tt q' ->
  clean_job event q' = Raise ValueError q' /\
  (forall q0, Some event ∉ ACTIVE_JOBS q0 ->
              clean_job event q0 = Raise ValueError q0).
Proof.
  intros Huniq Hrun.
  assert (Habsent : forall q0, Some event ∉ ACTIVE_JOBS q0 ->
                               clean_job event q0 = Raise ValueError q0).
  { intros q0 Hnot. unfold clean_job.
    apply py_index_None in Hnot. by rewrite Hnot. }
  split; [|done]. apply Habsent.
  unfold clean_job in Hrun.
  destruct (py_index (Some event) (ACTIVE_JOBS q)) as [i|] eqn:Hi; [|done].
  injection Hrun as <-. simpl.
  destruct (py_index_Some _ _ _ Hi) as [Hl _]. by apply release_removes.
Qed.

Lemma clean_job_twice_raises_witness :
  clean_job 0%nat (exec (call_clean_job 0%nat) one_admitted)
  = Raise ValueError (exec (call_clean_job 0%nat) one_admitted).
Proof.
  apply (clean_job_twice_raises 0%nat one_admitted).
  - intros [|a] [|b]; vm_compute; intros; try discriminate; reflexivity.
  - vm_compute. reflexivity.
Defined.

(** X5: admission followed by [clean_job] for the admitted event gives the
    slot list back as it was, provided the event was in no slot before. *)
Theorem admit_then_clean_job (q q' : Queue) event spawned :
  start_processing_iter q = Ret (LoopAdmit event spawned) q' ->
  Some event ∉ ACTIVE_JOBS q ->
  clean_job event q' = Ret tt (set_EVENT_QUEUE (EVENT_QUEUE q') q).
Proof.
  intros Hrun Hnot.
  destruct (start_processing_iter_cases q)
    as [[Hs H]|[(Hs & Hq & H)|[(Hs & Hq & Hn & H)|
        (e & r & i & Hs & Hq & Hi & H)]]]; rewrite H in Hrun; try done.
  injection Hrun as <- _ <-.
  destruct (py_index_Some _ _ _ Hi) as [Hl _].
  unfold clean_job. simpl.
  rewrite py_index_insert_fresh; [|by eapply lookup_lt_Some|done].
  f_equal. rewrite list_insert_insert_eq, list_insert_id by done.
  by destruct q.
Qed.

Lemma admit_then_clean_job_witness :
  clean_job 0%nat one_admitted = Ret tt Queue_class.
Proof.
  apply (admit_then_clean_job (exec (call_push 0%nat) Queue_class)
           one_admitted 0%nat
           [ProcessEvent 0%nat; GatherDataForFirstRanks; BroadcastEstimation]).
  - vm_compute. reflexivity.
  - vm_compute. intros H. apply list_elem_of_singleton in H. discriminate H.
Defined.

Lemma py_remove_snoc {A} `{EqDecision A} (x : A) l :
  x ∉ l -> py_remove x (l ++ [x]) = Some l.
Proof.
  induction l as [|y l IH]; simpl; intros Hnot.
  - by rewrite decide_True.
  - apply not_elem_of_cons in Hnot as [Hne Hnot].
    rewrite decide_False by done. by rewrite IH.
Qed.

(** X6: [push] followed by [clean_event] for an event that was not
    pending leaves the class as it was. *)
Theorem push_then_clean_event (event : eid) (q : Queue) :
  event ∉ EVENT_QUEUE q ->
  (push event ;;; clean_event event)%py q = Ret tt q.
Proof.
  intros Hnot. unfold bind, push, modify. rewrite clean_event_Ret. simpl.
  rewrite py_remove_snoc by done. by destruct q.
Qed.

Lemma push_then_clean_event_witness :
  (push 5%nat ;;; clean_event 5%nat)%py one_admitted_one_pending
  = Ret tt one_admitted_one_pending.
Proof.
  apply push_then_clean_event. vm_compute.
  intros H. apply list_elem_of_singleton in H. discriminate H.
Defined.

(** ** Who gets admitted *)

Lemma exec_pending_subset (c : call) (q : Queue) event :
  event ∈ EVENT_QUEUE (exec c q) ->
  event ∈ EVENT_QUEUE q \/ c = call_push event.
Proof.
  destruct c; simpl; try (by left).
  - unfold push, modify. simpl. intros Hin.
    apply elem_of_app in Hin as [Hin|Hin]; [by left|].
    apply list_elem_of_singleton in Hin as ->. by right.
  - destruct (start_processing_iter_cases q)
      as [[_ H]|[(_ & _ & H)|[(_ & _ & _ & H)|(e & r & i & _ & Hq & _ & H)]]];
      rewrite H; simpl; try (by left).
    intros Hin. left. rewrite Hq. by right.
  - unfold clean_job. destruct (py_index _ _); by left.
  - rewrite clean_event_Ret.
    destruct (py_remove event0 (EVENT_QUEUE q)) as [l|] eqn:E; [|by left].
    destruct (py_remove_Some _ _ _ E) as (l1 & l2 & Hq & _ & ->).
    simpl. intros Hin. left. rewrite Hq.
    apply elem_of_app in Hin as [Hin|Hin]; apply elem_of_app; [by left|].
    right. by right.
  - destruct (update_estimation_frame duration q) as (-> & _). by left.
Qed.

Lemma admits_pending (c : call) (q : Queue) event :
  event ∈ admits c q -> event ∈ EVENT_QUEUE q.
Proof.
  destruct c; simpl; try (by intros H; apply elem_of_nil in H).
  destruct (start_processing_iter_cases q)
    as [[_ H]|[(_ & _ & H)|[(_ & _ & _ & H)|(e & r & i & _ & Hq & _ & H)]]];
    rewrite H; try (by intros H'; apply elem_of_nil in H').
  intros Hin. apply list_elem_of_singleton in Hin as ->. rewrite Hq. left.
Qed.

Lemma run_admitted_subset (cs : list call) (q : Queue) event :
  event ∈ (run cs q).2 ->
  event ∈ EVENT_QUEUE q \/ call_push event ∈ cs.
Proof.
  revert q; induction cs as [|c cs IH]; intros q.
  - simpl. intros H. by apply elem_of_nil in H.
  - rewrite run_cons. cbn [snd]. intros Hin.
    apply elem_of_app in Hin as [Hin|Hin].
    + left. by eapply admits_pending.
    + destruct (IH _ Hin) as [Hq|Hp]; [|right; by right].
      destruct (exec_pending_subset _ _ _ Hq) as [Hq'|Hc]; [by left|].
      subst c. right. left.
Qed.

(** X7: an event is admitted only if it was pending or is pushed on the
    way.  So after [clean_event] for an event of a pending queue without
    duplicates, no sequence of calls that does not push the event again
    admits it. *)
Theorem cancelled_never_admitted (cs : list call) (q : Queue) event :
  NoDup (EVENT_QUEUE q) ->
  call_push event ∉ cs ->
  event ∉ (run cs (exec (call_clean_event event) q)).2.
Proof.
  intros Hnd Hcs Hin.
  destruct (run_admitted_subset _ _ _ Hin) as [Hq|Hp]; [|done].
  simpl in Hq. rewrite clean_event_Ret in Hq.
  destruct (py_remove event (EVENT_QUEUE q)) as [l|] eqn:E.
  - destruct (py_remove_Some _ _ _ E) as (l1 & l2 & Hl & Hnot & ->).
    simpl in Hq. rewrite Hl in Hnd.
    apply list.NoDup_app in Hnd as (_ & Hdis & Hnd).
    apply list.NoDup_cons in Hnd as [Hnot2 _].
    apply elem_of_app in Hq as [Hq|Hq]; done.
  - apply py_remove_None in E. done.
Qed.

Lemma cancelled_never_admitted_witness :
  1%nat ∉ (run [call_clean_job 0%nat; call_start_processing_iter;
                call_push 2%nat; call_start_processing_iter]
             (exec (call_clean_event 1%nat) one_admitted_one_pending)).2.
Proof.
  apply cancelled_never_admitted.
  - vm_compute. apply list.NoDup_singleton.
  - intros H. repeat (apply elem_of_cons in H as [H|H]; [discriminate H|]).
    by apply elem_of_nil in H.
Defined.

Lemma exec_order (c : call) (q : Queue) :
  admits c q ++ EVENT_QUEUE (exec c q)
  `sublist_of` EVENT_QUEUE q ++ pushed c.
Proof.
  destruct (is_cancel c) eqn:Hc; [|by rewrite exec_fifo].
  destruct c; try done. simpl. rewrite app_nil_r, clean_event_Ret.
  destruct (py_remove event (EVENT_QUEUE q)) as [l|] eqn:E; [|done].
  destruct (py_remove_Some _ _ _ E) as (l1 & l2 & -> & _ & ->). simpl.
  apply sublist_app; [done|]. by apply sublist_cons.
Qed.

(** X24: along any sequence of calls, cancellations included, the events
    admitted so far followed by the events still pending are a
    subsequence of the arrivals: removals never change the order in which
    the remaining events are admitted. *)
Theorem admission_order_with_cancellations (cs : list call) (q : Queue) :
  (run cs q).2 ++ EVENT_QUEUE (run cs q).1
  `sublist_of` EVENT_QUEUE q ++ flat_map pushed cs.
Proof.
  revert q; induction cs as [|c cs IH]; intros q.
  - simpl. by rewrite app_nil_r.
  - rewrite run_cons. cbn [fst snd flat_map].
    rewrite <- app_assoc.
    transitivity (admits c q ++ EVENT_QUEUE (exec c q) ++ flat_map pushed cs).
    + apply sublist_app; [done|]. apply IH.
    + rewrite !app_assoc. apply sublist_app; [|done]. apply exec_order.
Qed.

(** ** Stop, resume and configuration *)

Lemma exec_keeps_STOP (c : call) (q : Queue) :
  STOP q = true -> c <> call_resume -> STOP (exec c q) = true.
Proof.
  intros Hs Hc. destruct c; simpl; try done.
  - destruct (start_processing_iter_cases q)
      as [[_ H]|[(H' & _)|[(H' & _)|(e & r & i & H' & _)]]];
      [by rewrite H|congruence..].
  - unfold clean_job. by destruct (py_index _ _).
  - rewrite clean_event_Ret. by destruct (py_remove _ _).
  - by destruct (update_estimation_frame duration q) as (_ & _ & _ & -> & _).
Qed.

Lemma stopped_admits_nobody (cs : list call) (q : Queue) :
  STOP q = true -> call_resume ∉ cs -> (run cs q).2 = [].
Proof.
  revert q; induction cs as [|c cs IH]; intros q Hs Hcs; [done|].
  apply not_elem_of_cons in Hcs as [Hc Hcs].
  rewrite run_cons. cbn [snd].
  rewrite IH; [|by apply exec_keeps_STOP|done].
  rewrite app_nil_r. destruct c; try done. unfold admits.
  destruct (start_processing_iter_cases q)
    as [[_ H]|[(H' & _)|[(H' & _)|(e & r & i & H' & _)]]];
    [by rewrite H|congruence..].
Qed.

(** X8: once [close] has set [STOP], no sequence of calls without
    [resume] admits an event, whatever is pushed and however many passes
    of [start_processing] are made; [configure_queue] does not restart the
    queue. *)
Theorem close_stops_admission (cs : list call) (q : Queue) :
  call_resume ∉ cs -> (run cs (final (close q))).2 = [].
Proof. intros Hcs. by apply stopped_admits_nobody. Qed.

Lemma close_stops_admission_witness :
  (run [call_push 3%nat; call_start_processing_iter;
        call_configure_queue "http://localhost/" true 4 30 5 100;
        call_start_processing_iter]
     (final (close one_admitted_one_pending))).2 = [].
Proof.
  apply close_stops_admission.
  intros H. repeat (apply elem_of_cons in H as [H|H]; [discriminate H|]).
  by apply elem_of_nil in H.
Defined.

(** X9: [configure_queue] empties the slot pool: it has one empty slot per
    unit of a positive count and none otherwise, whatever was running;
    the pending queue, the stop flag, the history and the estimation are
    kept. *)
Theorem configure_queue_resets_slots
    (server_path : string) (live : bool) (n dgs ui dhs : Z) (q : Queue) :
  let q' := configure_queue server_path live n dgs ui dhs q in
  length (ACTIVE_JOBS q') = Z.to_nat n /\
  (forall i, (i < Z.to_nat n)%nat -> ACTIVE_JOBS q' !! i = Some None) /\
  occupied q' = 0%nat /\
  (forall event, Some event ∉ ACTIVE_JOBS q') /\
  EVENT_QUEUE q' = EVENT_QUEUE q /\ STOP q' = STOP q /\
  DURATION_HISTORY q' = DURATION_HISTORY q /\ ESTIMATION q' = ESTIMATION q.
Proof.
  cbv zeta. simpl. unfold py_repeat.
  split; [by rewrite length_replicate|].
  split; [intros i Hi; by apply lookup_replicate_2|].
  split.
  - unfold occupied. simpl. unfold py_repeat.
    induction (Z.to_nat n) as [|k IH]; [done|]. simpl.
    by rewrite filter_cons_False by apply not_is_Some_None.
  - split; [|done]. intros event Hin.
    apply elem_of_replicate in Hin as [? _]. done.
Qed.

(** ** The history and the estimation *)

Lemma last_n_app {A} (n : nat) (l k : list A) :
  last_n n (last_n n l ++ k) = last_n n (l ++ k).
Proof.
  unfold last_n. rewrite <- (drop_app_le l k) by lia.
  rewrite drop_drop. f_equal. rewrite length_drop, !length_app. lia.
Qed.

Lemma retained_last_n (d : Q) (q : Queue) :
  0 < DURATION_HISTORY_SIZE q ->
  Z.of_nat (length (DURATION_HISTORY q)) <= DURATION_HISTORY_SIZE q ->
  retained d q
  = last_n (Z.to_nat (DURATION_HISTORY_SIZE q)) (DURATION_HISTORY q ++ [d]).
Proof.
  intros Hsize Hlen. unfold retained, last_n.
  rewrite length_app. simpl.
  destruct (Z.ltb_spec (DURATION_HISTORY_SIZE q)
              (Z.of_nat (length (DURATION_HISTORY q) + 1))) as [Hlt|Hge].
  - replace (length (DURATION_HISTORY q) + 1
             - Z.to_nat (DURATION_HISTORY_SIZE q))%nat with 1%nat by lia.
    by destruct (DURATION_HISTORY q ++ [d]).
  - replace (length (DURATION_HISTORY q) + 1
             - Z.to_nat (DURATION_HISTORY_SIZE q))%nat with 0%nat by lia.
    done.
Qed.

(** X10: with a count other than zero, a window of at least one and a
    history within the window, a series of [update_estimation] calls
    keeps exactly the most recent durations, as many as the window holds;
    the history stays within the window. *)
Theorem update_estimation_window (ds : list Q) (q : Queue) :
  MAX_THREAD_COUNT q <> 0 -> 0 < DURATION_HISTORY_SIZE q ->
  Z.of_nat (length (DURATION_HISTORY q)) <= DURATION_HISTORY_SIZE q ->
  let q' := (run (map call_update_estimation ds) q).1 in
  DURATION_HISTORY q'
  = last_n (Z.to_nat (DURATION_HISTORY_SIZE q)) (DURATION_HISTORY q ++ ds) /\
  Z.of_nat (length (DURATION_HISTORY q')) <= DURATION_HISTORY_SIZE q.
Proof.
  revert q; induction ds as [|d ds IH]; intros q Hc Hsize Hlen; cbv zeta.
  - simpl. rewrite app_nil_r. split; [|done]. unfold last_n.
    replace (length (DURATION_HISTORY q)
             - Z.to_nat (DURATION_HISTORY_SIZE q))%nat with 0%nat by lia.
    done.
  - cbn [map]. rewrite run_cons. cbn [fst].
    set (q1 := exec (call_update_estimation d) q).
    assert (Hq1 : q1 = set_ESTIMATION
                         (py_round
                            (fadd (fdiv (average (retained d q))
                                        (float_of_int (MAX_THREAD_COUNT q)))
                                  d) 2)
                         (set_DURATION_HISTORY (retained d q) q)).
    { unfold q1. simpl. by rewrite update_estimation_returns. }
    assert (Hh1 : DURATION_HISTORY q1
                  = last_n (Z.to_nat (DURATION_HISTORY_SIZE q))
                      (DURATION_HISTORY q ++ [d])).
    { rewrite Hq1. simpl. by apply retained_last_n. }
    assert (Hs1 : DURATION_HISTORY_SIZE q1 = DURATION_HISTORY_SIZE q)
      by (by rewrite Hq1).
    assert (Hc1 : MAX_THREAD_COUNT q1 = MAX_THREAD_COUNT q)
      by (by rewrite Hq1).
    destruct (IH q1) as [Hh Hl].
    + by rewrite Hc1.
    + by rewrite Hs1.
    + rewrite Hs1, Hh1. unfold last_n. rewrite length_drop, length_app.
      simpl. lia.
    + rewrite Hs1 in Hh, Hl. split; [|done].
      rewrite Hh, Hh1, last_n_app, <- app_assoc. done.
Qed.

Lemma update_estimation_window_witness :
  DURATION_HISTORY
    (run (map call_update_estimation [1; 2; 3; 4]%Q)
       (configure_queue "http://localhost/" true 1 30 5 3 Queue_class)).1
  = [2; 3; 4]%Q.
Proof.
  apply (proj1 (update_estimation_window [1; 2; 3; 4]%Q
                  (configure_queue "http://localhost/" true 1 30 5 3
                     Queue_class)
                  ltac:(vm_compute; discriminate)
                  ltac:(vm_compute; reflexivity)
                  ltac:(vm_compute; discriminate))).
Defined.

(** X11: [update_estimation] raises [ZeroDivisionError] exactly when
    [MAX_THREAD_COUNT] is zero, or the history is empty and the window is
    smaller than one.  When it raises, the history has already been
    written and the estimation is the old one. *)
Theorem update_estimation_raises (d : Q) (q : Queue) :
  let failing :=
    MAX_THREAD_COUNT q = 0 \/
    (DURATION_HISTORY q = [] /\ DURATION_HISTORY_SIZE q < 1) in
  (failing ->
   update_estimation d q
   = Raise ZeroDivisionError (set_DURATION_HISTORY (retained d q) q)) /\
  (~ failing -> returned (update_estimation d q) = true).
Proof.
  cbv zeta. rewrite update_estimation_eq. cbv zeta.
  assert (Hempty : retained d q = []
                   <-> DURATION_HISTORY q = [] /\ DURATION_HISTORY_SIZE q < 1).
  { unfold retained. rewrite length_app. simpl.
    destruct (Z.ltb_spec (DURATION_HISTORY_SIZE q)
                (Z.of_nat (length (DURATION_HISTORY q) + 1))) as [Hlt|Hge].
    - destruct (DURATION_HISTORY q) as [|x [|y l]]; simpl in *.
      + split; [intros _; split; [done|lia]|done].
      + split; [done|]. by intros [? _].
      + split; [done|]. by intros [? _].
    - split; [|intros [-> ?]; simpl in *; lia].
      intros H. by destruct (DURATION_HISTORY q). }
  destruct (Nat.eqb_spec (length (retained d q)) 0) as [H0|H0].
  - apply length_zero_iff_nil in H0. split; [done|].
    intros Hnot. exfalso. apply Hnot. right. by apply Hempty.
  - destruct (Z.eqb_spec (MAX_THREAD_COUNT q) 0) as [Hc|Hc].
    + split; [done|]. intros Hnot. exfalso. apply Hnot. by left.
    + split; [|done]. intros [?|He]; [done|].
      apply Hempty in He. rewrite He in H0. done.
Qed.

(** ** Broadcast and prefetch *)

Lemma py_remove_middle {A} `{EqDecision A} (x : A) l1 l2 :
  x ∉ l1 -> py_remove x (l1 ++ x :: l2) = Some (l1 ++ l2).
Proof.
  induction l1 as [|y l1 IH]; simpl; intros Hnot.
  - by rewrite decide_True.
  - apply not_elem_of_cons in Hnot as [Hne Hnot].
    rewrite decide_False by done. by rewrite IH.
Qed.

Lemma filter_ext_in {A} (P1 P2 : A -> Prop)
    `{!forall x, Decision (P1 x)} `{!forall x, Decision (P2 x)} (l : list A) :
  (forall x, x ∈ l -> (P1 x <-> P2 x)) -> filter P1 l = filter P2 l.
Proof.
  induction l as [|y l IH]; intros Hext; [done|].
  assert (Hl : filter P1 l = filter P2 l).
  { apply IH. intros x Hx. apply Hext. by right. }
  destruct (decide (P1 y)) as [Hy|Hy].
  - rewrite (filter_cons_True P1) by done.
    rewrite (filter_cons_True P2) by (apply Hext; [left|done]).
    by rewrite Hl.
  - rewrite (filter_cons_False P1) by done.
    rewrite (filter_cons_False P2); [done|].
    intros Hy'. apply Hy. apply Hext; [left|done].
Qed.

Lemma send_estimation_effect (event : eid) (est : Estimation) (w : World) :
  exists w',
    send_estimation event est w = Ret tt w' /\
    (forall e, e <> event -> objs w' e = objs w e) /\
    cls w' = (if next_send (objs w event) then cls w
              else final (clean_event event (cls w))).
Proof.
  destruct w as [q o t k v].
  unfold send_estimation, bind, send_message. world_simpl.
  destruct (next_send (o event)) eqn:Hs; cbn [negb].
  - eexists. split; [done|]. world_simpl. split; [|done].
    intros e He. by rewrite fn_lookup_insert_ne.
  - unfold on_cls. world_simpl. rewrite clean_event_Ret.
    eexists. split; [done|]. world_simpl. split; [|done].
    intros e He. by rewrite fn_lookup_insert_ne.
Qed.

Lemma gather_send_estimation_prunes (est : Estimation) (l : list eid) :
  forall (w : World) (pre : list eid),
    NoDup (pre ++ l) -> EVENT_QUEUE (cls w) = pre ++ l ->
    exists w',
      gather (fun event => send_estimation event est) l w = Ret tt w' /\
      EVENT_QUEUE (cls w')
      = pre ++ filter (fun e => next_send (objs w e) = true) l /\
      cls w' = set_EVENT_QUEUE (EVENT_QUEUE (cls w')) (cls w).
Proof.
  induction l as [|event l IH]; intros w pre Hnd Hq.
  - exists w. simpl. split; [done|]. rewrite Hq.
    split; [done|]. rewrite <- Hq. by rewrite set_EVENT_QUEUE_same.
  - destruct (send_estimation_effect event est w) as (w1 & Hrun & Hobjs & Hcls).
    cbn [gather]. unfold bind. rewrite Hrun.
    apply list.NoDup_app in Hnd as (Hpre & Hdis & Hl).
    apply list.NoDup_cons in Hl as [Hfresh Hl].
    assert (Hnotpre : event ∉ pre).
    { intros Hin. apply (Hdis _ Hin). left. }
    assert (Hext : filter (fun e => next_send (objs w1 e) = true) l
                   = filter (fun e => next_send (objs w e) = true) l).
    { apply filter_ext_in. intros e He.
      rewrite Hobjs; [done|]. intros ->. done. }
    destruct (next_send (objs w event)) eqn:Hs.
    + destruct (IH w1 (pre ++ [event])) as (w' & Hrun' & Hq' & Hcls').
      * rewrite <- app_assoc. simpl. apply list.NoDup_app.
        split; [done|]. split; [done|]. by apply list.NoDup_cons.
      * rewrite Hcls, Hq, <- app_assoc. done.
      * exists w'. split; [done|]. split.
        -- rewrite Hq', Hext, <- app_assoc.
           by rewrite filter_cons_True by done.
        -- rewrite Hcls in Hcls'. exact Hcls'.
    + destruct (IH w1 pre) as (w' & Hrun' & Hq' & Hcls').
      * apply list.NoDup_app. split; [done|]. split; [|done].
        intros x Hx Hx'. apply (Hdis x Hx). by right.
      * rewrite Hcls, clean_event_Ret, Hq.
        rewrite py_remove_middle by done. done.
      * exists w'. split; [done|]. split.
        -- rewrite Hq', Hext.
           by rewrite filter_cons_False by (by rewrite Hs).
        -- rewrite Hcls, clean_event_Ret, Hq in Hcls'.
           rewrite py_remove_middle in Hcls' by done. exact Hcls'.
Qed.

(** X13: on a pending queue without duplicates, [broadcast_estimation]
    returns with exactly those events still pending, in their order,
    whose websocket took the message; the events whose [send_json] raised
    are gone from the queue.  Nothing else of the class changes. *)
Theorem broadcast_estimation_prunes (w : World) :
  NoDup (EVENT_QUEUE (cls w)) ->
  exists w',
    broadcast_estimation w = Ret tt w' /\
    EVENT_QUEUE (cls w')
    = filter (fun e => next_send (objs w e) = true) (EVENT_QUEUE (cls w)) /\
    cls w' = set_EVENT_QUEUE (EVENT_QUEUE (cls w')) (cls w).
Proof.
  intros Hnd.
  destruct (gather_send_estimation_prunes (get_estimation (cls w))
              (EVENT_QUEUE (cls w)) w []) as (w' & Hrun & Hq & Hcls);
    [done|done|].
  exists w'. split; [|done]. unfold broadcast_estimation, bind, gets. done.
Qed.

Lemma broadcast_estimation_prunes_witness :
  exists w',
    broadcast_estimation
      (world_of one_admitted_one_pending gone_websocket answering_env)
    = Ret tt w' /\
    EVENT_QUEUE (cls w') = [].
Proof.
  destruct (broadcast_estimation_prunes
              (world_of one_admitted_one_pending gone_websocket answering_env))
    as (w' & Hrun & Hq & _).
  - vm_compute. apply list.NoDup_singleton.
  - exists w'. split; [exact Hrun|]. rewrite Hq. vm_compute. reflexivity.
Defined.

Lemma gather_event_data_effect (event : eid) (w : World) :
  exists w' new,
    gather_event_data event w = Ret tt w' /\
    trace w' = trace w ++ new /\
    Forall (fun x => io_event x = Some event) new /\
    (truthy (data (objs w event)) = true -> w' = w) /\
    (forall e, e <> event -> objs w' e = objs w e) /\
    ACTIVE_JOBS (cls w') = ACTIVE_JOBS (cls w).
Proof.
  destruct (truthy (data (objs w event))) eqn:Hd.
  - exists w, []. rewrite gather_event_data_present by done.
    rewrite app_nil_r. repeat split; done.
  - destruct w as [q o t k v].
    unfold gather_event_data, bind, get_data, gets, ret. world_simpl.
    rewrite Hd. cbn [negb]. unfold send_message. world_simpl.
    destruct (next_send (o event)) eqn:Hs; cbn [negb].
    + unfold get_message, set_data, modify. repeat world_simpl.
      do 2 eexists. split; [done|]. world_simpl.
      split; [by rewrite <- app_assoc|].
      split; [by repeat constructor|]. split; [done|]. split; [|done].
      intros e He. by rewrite !fn_lookup_insert_ne.
    + unfold on_cls. world_simpl. rewrite clean_event_Ret.
      do 2 eexists. split; [done|]. world_simpl. split; [done|].
      split; [by repeat constructor|]. split; [done|]. split.
      * intros e He. by rewrite fn_lookup_insert_ne.
      * by destruct (py_remove event (EVENT_QUEUE q)).
Qed.

Lemma gather_gather_event_data (l : list eid) (w : World) :
  exists w' new,
    gather gather_event_data l w = Ret tt w' /\
    trace w' = trace w ++ new /\
    Forall (fun x => exists e,
              io_event x = Some e /\ e ∈ l /\
              truthy (data (objs w e)) = false) new /\
    ACTIVE_JOBS (cls w') = ACTIVE_JOBS (cls w).
Proof.
  revert w; induction l as [|event l IH]; intros w.
  - exists w, []. simpl. rewrite app_nil_r. repeat split; done.
  - destruct (gather_event_data_effect event w)
      as (w1 & new1 & Hrun & Ht & Hnew & Hsame & Hobjs & Hslots).
    destruct (IH w1) as (w' & new & Hrun' & Ht' & Hnew' & Hslots').
    exists w', (new1 ++ new). cbn [gather]. unfold bind. rewrite Hrun.
    split; [done|]. split; [by rewrite Ht', Ht, app_assoc|].
    split; [|by rewrite Hslots', Hslots].
    destruct (truthy (data (objs w event))) eqn:Hd.
    + pose proof (Hsame eq_refl) as Hw. subst w1.
      assert (new1 = []) as ->.
      { apply (app_inv_head (trace w)). by rewrite app_nil_r. }
      simpl. eapply List.Forall_impl; [|exact Hnew'].
      intros x (e & Hx & He & Hde).
      exists e. split; [done|]. split; [by right|done].
    + apply Forall_app. split.
      * eapply List.Forall_impl; [|exact Hnew]. intros x Hx.
        exists event. split; [done|]. split; [left|done].
      * eapply List.Forall_impl; [|exact Hnew'].
        intros x (e & Hx & He & Hde).
        exists e. split; [done|]. split; [by right|].
        destruct (decide (e = event)) as [->|Hne]; [done|].
        by rewrite <- (Hobjs e Hne).
Qed.

(** X14: [gather_data_for_first_ranks] returns, and every call it makes
    on a websocket is for an event among the first
    [DATA_GATHERING_STARTS_AT] of the pending queue that had no payload;
    the slots are not touched.  With [DATA_GATHERING_STARTS_AT] at zero it
    does nothing at all. *)
Theorem gather_data_for_first_ranks_scope (w : World) :
  let ahead :=
    py_slice_to (DATA_GATHERING_STARTS_AT (cls w)) (EVENT_QUEUE (cls w)) in
  exists w' new,
    gather_data_for_first_ranks w = Ret tt w' /\
    trace w' = trace w ++ new /\
    Forall (fun x => exists e,
              io_event x = Some e /\ e ∈ ahead /\
              truthy (data (objs w e)) = false) new /\
    ACTIVE_JOBS (cls w') = ACTIVE_JOBS (cls w) /\
    (DATA_GATHERING_STARTS_AT (cls w) = 0 -> w' = w).
Proof.
  cbv zeta.
  destruct (gather_gather_event_data
              (py_slice_to (DATA_GATHERING_STARTS_AT (cls w))
                 (EVENT_QUEUE (cls w))) w)
    as (w' & new & Hrun & Ht & Hnew & Hslots).
  exists w', new. unfold gather_data_for_first_ranks, bind, gets.
  split; [done|]. split; [done|]. split; [done|]. split; [done|].
  intros H0. rewrite H0 in Hrun. unfold py_slice_to in Hrun.
  simpl in Hrun. by injection Hrun.
Qed.

(** ** The payload *)

(** X15: when the client takes ["send_data"] and answers with a truthy
    payload, [gather_event_data] stores it, and from then on
    [gather_event_data] for the event does nothing: the client is asked
    once. *)
Theorem gather_event_data_once (event : eid) (w : World) (payload : json) :
  truthy (data (objs w event)) = false ->
  next_send (objs w event) = true ->
  next_receive (objs w event) = Some payload ->
  truthy payload = true ->
  exists w1,
    gather_event_data event w = Ret tt w1 /\
    data (objs w1 event) = payload /\
    trace w1 = trace w ++ [send_json event msg_send_data true;
                           receive_json event (Some payload)] /\
    gather_event_data event w1 = Ret tt w1.
Proof.
  intros Hd Hs Hr Hp.
  destruct (gather_event_data_received event w Hd Hs)
    as (w1 & Hrun & Ht & _ & _ & _ & Hobj).
  rewrite Hr in Ht, Hobj. simpl in Hobj.
  exists w1. split; [done|]. split; [by rewrite Hobj|]. split; [done|].
  apply gather_event_data_present. by rewrite Hobj.
Qed.

Lemma gather_event_data_once_witness :
  let w := world_of one_admitted_one_pending (live_websocket example_payload)
             answering_env in
  exists w1,
    gather_event_data 1%nat w = Ret tt w1 /\
    data (objs w1 1%nat) = example_payload /\
    gather_event_data 1%nat w1 = Ret tt w1.
Proof.
  cbv zeta.
  destruct (gather_event_data_once 1%nat
              (world_of one_admitted_one_pending
                 (live_websocket example_payload) answering_env)
              example_payload)
    as (w1 & Hrun & Hdata & _ & Hagain); try (vm_compute; reflexivity).
  exists w1. split; [exact Hrun|]. split; [exact Hdata|exact Hagain].
Defined.

(** X16: a payload that is falsy in Python (null, false, zero, an empty
    string, list or object) counts as no payload, as does a failed
    receive: the event stays where it is, and the next
    [gather_event_data] sends ["send_data"] again. *)
Theorem gather_event_data_falsy_payload (event : eid) (w : World) :
  truthy (data (objs w event)) = false ->
  next_send (objs w event) = true ->
  truthy (default JNull (next_receive (objs w event))) = false ->
  exists w1 w2 ok,
    gather_event_data event w = Ret tt w1 /\
    cls w1 = cls w /\
    gather_event_data event w1 = Ret tt w2 /\
    trace w2 = trace w
      ++ [send_json event msg_send_data true;
          receive_json event (next_receive (objs w event));
          send_json event msg_send_data ok]
      ++ (if ok then [receive_json event (next_receive (objs w1 event))]
          else []).
Proof.
  intros Hd Hs Hr.
  destruct (gather_event_data_received event w Hd Hs)
    as (w1 & Hrun & Ht & Hcls & _ & _ & Hobj).
  assert (Hd1 : truthy (data (objs w1 event)) = false) by (by rewrite Hobj).
  exists w1. destruct (next_send (objs w1 event)) eqn:Hs1.
  - destruct (gather_event_data_received event w1 Hd1 Hs1)
      as (w2 & Hrun2 & Ht2 & _).
    exists w2, true. split; [done|]. split; [done|]. split; [done|].
    rewrite Ht2, Ht, <- !app_assoc. done.
  - destruct (gather_event_data_dead event w1 Hd1 Hs1)
      as (w2 & Hrun2 & Ht2 & _).
    exists w2, false. split; [done|]. split; [done|]. split; [done|].
    rewrite Ht2, Ht, <- !app_assoc. done.
Qed.

Lemma gather_event_data_falsy_payload_witness :
  let w := world_of one_admitted_one_pending (live_websocket (JObj []))
             answering_env in
  exists w1 w2,
    gather_event_data 1%nat w = Ret tt w1 /\
    EVENT_QUEUE (cls w1) = [1%nat] /\
    gather_event_data 1%nat w1 = Ret tt w2.
Proof.
  cbv zeta.
  destruct (gather_event_data_falsy_payload 1%nat
              (world_of one_admitted_one_pending (live_websocket (JObj []))
                 answering_env))
    as (w1 & w2 & ok & Hrun & Hcls & Hrun2 & Ht);
    try (vm_compute; reflexivity).
  exists w1, w2. split; [exact Hrun|]. split; [by rewrite Hcls|exact Hrun2].
Defined.

(** ** A job that holds no slot *)

(** X17: [process_event] for an event that is in no slot (the slot pool
    was configured anew while the job was running, say), with a
    concurrency count other than zero and a window of at least one entry,
    once ["process_starts"] has been sent: the job still runs.  The backend
    is called, the duration is recorded and ["process_completed"] is sent
    with what [response.json] holds, with [websocket.close] after a
    successful send.  When the message was not sent, or [close] returns,
    [clean_job] then raises [ValueError]; the slots are as they were. *)
Theorem process_event_without_slot (event : eid) (w : World) :
  let w1 := after_gather event w in
  let out :=
    default JNull
      (backend (env w) (predict_url (cls w)) (data (objs w1 event))) in
  let delivered := next_send (sent (objs w1 event)) in
  let t0 := clock (env w) (clock_reads w) in
  let t1 := clock (env w) (S (clock_reads w)) in
  Some event ∉ ACTIVE_JOBS (cls w) ->
  MAX_THREAD_COUNT (cls w) <> 0 -> 0 < DURATION_HISTORY_SIZE (cls w) ->
  next_send (objs w1 event) = true ->
  (delivered = true -> close_returns (websocket (objs w1 event)) = true) ->
  exists w',
    process_event event w = Raise ValueError w' /\
    trace w' = trace w1
      ++ [send_json event msg_process_starts true;
          time_time t0;
          Request_POST (predict_url (cls w)) (data (objs w1 event)) (Some out);
          time_time t1;
          send_json event (msg_process_completed out) delivered]
      ++ (if delivered then [websocket_close event 1000] else []) /\
    ACTIVE_JOBS (cls w') = ACTIVE_JOBS (cls w) /\
    DURATION_HISTORY (cls w')
    = retained (py_round (fsub t1 t0) 3) (cls w).
Proof.
  intros w1 out delivered t0 t1 Hnot Hc Hsize Hs Hclose.
  apply py_index_None in Hnot.
  destruct (process_event_runs event w Hs Hc Hsize)
    as (w2 & Htrace & Hslots & Hh & Hrun).
  fold w1 out delivered t0 t1 in Htrace, Hh, Hrun.
  assert (Hgo : delivered && negb (close_returns (websocket (objs w1 event)))
                = false).
  { destruct delivered; [|done]. by rewrite Hclose. }
  rewrite Hgo, (on_cls_clean_job_Raise event w2) in Hrun
    by (by rewrite Hslots).
  exists w2. done.
Qed.

Lemma process_event_without_slot_witness :
  let w := world_of (configure_queue "http://localhost/" true 1 30 5 100
                       one_admitted)
             (live_websocket example_payload) answering_env in
  exists w',
    process_event 0%nat w = Raise ValueError w' /\
    ACTIVE_JOBS (cls w') = [None] /\
    DURATION_HISTORY (cls w') = [1%Q].
Proof.
  cbv zeta.
  destruct (process_event_without_slot 0%nat
              (world_of (configure_queue "http://localhost/" true 1 30 5 100
                           one_admitted)
                 (live_websocket example_payload) answering_env))
    as (w' & Hrun & _ & Hslots & Hh).
  - vm_compute. intros H. apply list_elem_of_singleton in H. discriminate H.
  - vm_compute. discriminate.
  - vm_compute. reflexivity.
  - vm_compute. reflexivity.
  - intros _. vm_compute. reflexivity.
  - exists w'. split; [exact Hrun|]. split; [exact Hslots|].
    rewrite Hh. vm_compute. reflexivity.
Defined.

(** * Properties of the examples *)

Lemma mark_inputs_length (idx : nat) (example : list pyval) flags :
  length (mark_inputs idx example flags) = length flags.
Proof.
  revert idx flags; induction example as [|x rest IH]; intros idx flags;
    [done|].
  simpl. rewrite IH. destruct (is_None x); [done|]. apply length_insert.
Qed.

Lemma is_None_false (x : pyval) : is_None x = false <-> x <> PyNone.
Proof. destruct x; simpl; split; done. Qed.

Lemma mark_inputs_true (idx : nat) (example : list pyval) flags j :
  mark_inputs idx example flags !! j = Some true
  <-> flags !! j = Some true \/
      ((j < length flags)%nat /\
       exists k x, example !! k = Some x /\ j = (idx + k)%nat /\ x <> PyNone).
Proof.
  revert idx flags; induction example as [|x rest IH]; intros idx flags.
  - simpl. split; [by left|]. intros [H|(_ & k & y & H & _)]; done.
  - simpl. rewrite IH. destruct (is_None x) eqn:Hx.
    + split.
      * intros [H|(Hj & k & y & Hk & -> & Hy)]; [by left|].
        right. split; [done|]. exists (S k), y. split; [done|].
        split; [lia|done].
      * intros [H|(Hj & k & y & Hk & -> & Hy)]; [by left|].
        destruct k as [|k]; simpl in Hk.
        -- injection Hk as ->. destruct y; done.
        -- right. split; [done|]. exists k, y. split; [done|].
           split; [lia|done].
    + apply is_None_false in Hx. rewrite length_insert. split.
      * intros [H|(Hj & k & y & Hk & -> & Hy)].
        -- apply list_lookup_insert_Some in H as [(<- & _ & Hlt)|[_ H]];
             [|by left].
           right. split; [done|]. exists 0%nat, x. split; [done|].
           split; [lia|done].
        -- right. split; [done|]. exists (S k), y. split; [done|].
           split; [lia|done].
      * intros [H|(Hj & k & y & Hk & -> & Hy)].
        -- left. destruct (decide (idx = j)) as [->|Hne].
           ++ apply list_lookup_insert_eq. by eapply lookup_lt_Some.
           ++ by rewrite list_lookup_insert_ne.
        -- destruct k as [|k]; simpl in Hk.
           ++ left. replace (idx + 0)%nat with idx in * by lia.
              by apply list_lookup_insert_eq.
           ++ right. split; [done|]. exists k, y. split; [done|].
              split; [lia|done].
Qed.

Lemma input_has_examples_loop_spec (examples : list pyval) flags flags' :
  input_has_examples_loop examples flags = inr flags' ->
  length flags' = length flags /\
  forall j,
    flags' !! j = Some true
    <-> flags !! j = Some true \/
        ((j < length flags)%nat /\
         exists example items x,
           example ∈ examples /\ py_iter example = Some items /\
           items !! j = Some x /\ x <> PyNone).
Proof.
  revert flags; induction examples as [|example rest IH]; intros flags.
  - simpl. intros [= <-]. split; [done|]. intros j. split; [by left|].
    intros [H|(_ & e & _ & _ & He & _)]; [done|]. by apply elem_of_nil in He.
  - simpl. destruct (py_iter example) as [items|] eqn:Hit; [|done].
    intros Hrun. destruct (IH _ Hrun) as [Hlen Hspec].
    rewrite mark_inputs_length in Hlen. split; [done|].
    intros j. rewrite Hspec, mark_inputs_true, mark_inputs_length. split.
    + intros [[H|(Hj & k & x & Hk & -> & Hx)]|(Hj & e & its & x & He & Hi & Hx)].
      * by left.
      * right. split; [done|]. exists example, items, x.
        split; [left|]. done.
      * right. split; [done|]. exists e, its, x. split; [by right|done].
    + intros [H|(Hj & e & its & x & He & Hi & Hx & Hn)]; [by left; left|].
      apply elem_of_cons in He as [->|He].
      * left. right. split; [done|]. exists j, x.
        rewrite Hit in Hi. injection Hi as ->. done.
      * right. split; [done|]. by exists e, its, x.
Qed.

(** X18: when [input_has_examples] is computed, it has one flag per input
    component, and the flag of a component is set exactly when some
    sample has an item that is not [None] at the position of the
    component.  Items past the last component set nothing. *)
Theorem input_has_examples_spec (n : nat) (examples : list pyval) flags :
  input_has_examples n examples = inr flags ->
  length flags = n /\
  forall j,
    flags !! j = Some true
    <-> (j < n)%nat /\
        exists example items x,
          example ∈ examples /\ py_iter example = Some items /\
          items !! j = Some x /\ x <> PyNone.
Proof.
  unfold input_has_examples. intros Hrun.
  destruct (input_has_examples_loop_spec _ _ _ Hrun) as [Hlen Hspec].
  rewrite length_replicate in Hlen, Hspec. split; [done|].
  intros j. rewrite Hspec. split.
  - intros [H|H]; [|done]. apply lookup_replicate in H as [? _]. done.
  - intros H. by right.
Qed.

Lemma input_has_examples_spec_witness :
  exists example items x,
    example ∈ [PyList [PyNone; PyInt 1; PyInt 2]; PyList [PyNone]] /\
    py_iter example = Some items /\ items !! 1%nat = Some x /\ x <> PyNone.
Proof.
  apply (proj1 (proj2 (input_has_examples_spec 2
                         [PyList [PyNone; PyInt 1; PyInt 2]; PyList [PyNone]]
                         [false; true] ltac:(vm_compute; reflexivity))
                      1%nat) eq_refl).
Defined.

Lemma keep_flagged_length_le {A B} (xs : list A) (ys : list B) flags :
  (length flags <= length ys)%nat ->
  (length (keep_flagged xs flags) <= length (keep_flagged ys flags))%nat.
Proof.
  revert xs ys; induction flags as [|keep flags IH]; intros xs ys Hlen.
  - destruct xs; simpl; lia.
  - destruct ys as [|y ys]; simpl in Hlen; [lia|].
    destruct xs as [|x xs]; simpl; [lia|].
    specialize (IH xs ys ltac:(lia)). destruct keep; simpl; lia.
Qed.

Lemma keep_flagged_length_eq {A B} (xs : list A) (ys : list B) flags :
  (length flags <= length xs)%nat -> (length flags <= length ys)%nat ->
  length (keep_flagged xs flags) = length (keep_flagged ys flags).
Proof.
  intros Hx Hy.
  pose proof (keep_flagged_length_le xs ys flags Hy).
  pose proof (keep_flagged_length_le ys xs flags Hx). lia.
Qed.

Lemma input_has_examples_loop_iterable (examples : list pyval) flags flags' :
  input_has_examples_loop examples flags = inr flags' ->
  Forall (fun example => is_Some (py_iter example)) examples.
Proof.
  revert flags; induction examples as [|example rest IH]; intros flags.
  - intros _. constructor.
  - simpl. destruct (py_iter example) as [items|] eqn:Hit; [|done].
    intros Hrun. constructor; [by eexists|]. by eapply IH.
Qed.

Lemma non_none_examples_rows_aux (examples : list pyval) flags :
  Forall (fun example => is_Some (py_iter example)) examples ->
  exists rows,
    non_none_examples examples flags = Some rows /\
    length rows = length examples /\
    forall i example items,
      examples !! i = Some example -> py_iter example = Some items ->
      rows !! i = Some (keep_flagged items flags).
Proof.
  induction 1 as [|example rest [items Hit] _ (rows & Hrun & Hlen & Hrows)].
  - exists []. split; [done|]. split; [done|]. intros i e its H. done.
  - exists (keep_flagged items flags :: rows). simpl. rewrite Hit, Hrun.
    split; [done|]. split; [by rewrite Hlen|].
    intros [|i] e its He Hi; simpl in *.
    + injection He as <-. rewrite Hit in Hi. by injection Hi as <-.
    + by eapply Hrows.
Qed.

(** X19: when [input_has_examples] is computed, [non_none_examples] has
    one row per sample, the items of the sample at the flagged positions.
    A sample with at least as many items as there are input components
    gives a row with exactly one item per component of
    [inputs_with_examples], a shorter one gives fewer; and every item left
    out at an unflagged position is [None]. *)
Theorem non_none_examples_rows {component} (inputs : list component)
    (examples : list pyval) flags :
  input_has_examples (length inputs) examples = inr flags ->
  exists rows,
    non_none_examples examples flags = Some rows /\
    length rows = length examples /\
    forall i example items,
      examples !! i = Some example -> py_iter example = Some items ->
      rows !! i = Some (keep_flagged items flags) /\
      (length (keep_flagged items flags)
       <= length (inputs_with_examples inputs flags))%nat /\
      ((length inputs <= length items)%nat ->
       length (keep_flagged items flags)
       = length (inputs_with_examples inputs flags)) /\
      (forall j x, items !! j = Some x -> flags !! j = Some false ->
                   x = PyNone).
Proof.
  intros Hrun.
  destruct (input_has_examples_spec _ _ _ Hrun) as [Hlen Hspec].
  pose proof (input_has_examples_loop_iterable _ _ _ Hrun) as Hiter.
  destruct (non_none_examples_rows_aux examples flags Hiter)
    as (rows & Hrows & Hlr & Hrow).
  exists rows. split; [done|]. split; [done|].
  intros i example items He Hi. split; [by eapply Hrow|].
  unfold inputs_with_examples. split; [|split].
  - apply keep_flagged_length_le. lia.
  - intros Hlong. apply keep_flagged_length_eq; lia.
  - intros j x Hj Hf. destruct (is_None x) eqn:Hx; [by destruct x|].
    apply is_None_false in Hx.
    assert (Ht : flags !! j = Some true).
    { apply Hspec. split; [apply lookup_lt_Some in Hf; lia|].
      exists example, items, x. split; [by eapply list_elem_of_lookup_2|done]. }
    congruence.
Qed.

Lemma non_none_examples_rows_witness :
  exists rows,
    non_none_examples [PyList [PyNone; PyInt 1]; PyList [PyNone; PyNone]]
      [false; true] = Some rows /\
    length rows = 2%nat.
Proof.
  destruct (non_none_examples_rows [0%nat; 1%nat]
              [PyList [PyNone; PyInt 1]; PyList [PyNone; PyNone]]
              [false; true] ltac:(vm_compute; reflexivity))
    as (rows & Hrows & Hlen & _).
  exists rows. split; [exact Hrows|exact Hlen].
Defined.

Lemma keep_flagged_all {A} (xs : list A) :
  keep_flagged xs (replicate (length xs) true) = xs.
Proof. induction xs as [|x xs IH]; simpl; [done|]. by rewrite IH. Qed.

Lemma keep_flagged_none {A} (xs : list A) (n : nat) :
  keep_flagged xs (replicate n false) = [].
Proof.
  revert n; induction xs as [|x xs IH]; intros [|n]; simpl; try done.
Qed.

(** X20: with at least one sample, when every sample has exactly one item
    per input component and no item is [None], every component is
    flagged: [inputs_with_examples] is [inputs] and the rows of
    [non_none_examples] are the samples.  With no sample at all, no
    component is flagged and [inputs_with_examples] is empty. *)
Theorem complete_examples_keep_everything {component}
    (inputs : list component) (examples : list pyval) :
  (forall example, example ∈ examples ->
     exists items, py_iter example = Some items /\
                   length items = length inputs /\
                   PyNone ∉ items) ->
  exists flags rows,
    input_has_examples (length inputs) examples = inr flags /\
    non_none_examples examples flags = Some rows /\
    (examples <> [] ->
     inputs_with_examples inputs flags = inputs /\
     forall i example, examples !! i = Some example ->
                       rows !! i = py_iter example) /\
    (examples = [] -> inputs_with_examples inputs flags = []).
Proof.
  intros Hall.
  assert (Hiter : Forall (fun e => is_Some (py_iter e)) examples).
  { apply Forall_forall. intros e He. apply list_elem_of_In in He.
    destruct (Hall e He) as (items & -> & _). by eexists. }
  assert (Hrun : exists flags,
             input_has_examples (length inputs) examples = inr flags).
  { unfold input_has_examples. generalize (replicate (length inputs) false).
    induction Hiter as [|e rest [items Hit] _ IH]; intros flags.
    - by eexists.
    - simpl. rewrite Hit. apply IH. intros e' He'. apply Hall. by right. }
  destruct Hrun as [flags Hrun].
  destruct (input_has_examples_spec _ _ _ Hrun) as [Hlen Hspec].
  destruct (non_none_examples_rows_aux examples flags Hiter)
    as (rows & Hrows & Hlr & Hrow).
  exists flags, rows. split; [done|]. split; [done|]. split.
  - intros Hne.
    assert (Hflags : flags = replicate (length inputs) true).
    { destruct examples as [|e0 rest]; [done|].
      destruct (Hall e0 ltac:(left)) as (items0 & Hit0 & Hl0 & Hn0).
      apply list_eq. intros j.
      destruct (decide (j < length inputs)%nat) as [Hj|Hj].
      - rewrite (lookup_replicate_2 _ _ _ Hj).
        destruct (lookup_lt_is_Some_2 items0 j ltac:(lia)) as [x Hx].
        apply Hspec. split; [done|]. exists e0, items0, x.
        split; [left|]. split; [done|]. split; [done|].
        intros ->. apply Hn0. by eapply list_elem_of_lookup_2.
      - rewrite !lookup_ge_None_2; [done| |lia].
        rewrite length_replicate. lia. }
    subst flags. split; [apply keep_flagged_all|].
    intros i example He.
    destruct (Hall example ltac:(by eapply list_elem_of_lookup_2))
      as (items & Hit & Hl & _).
    rewrite (Hrow i example items He Hit), Hit, <- Hl.
    by rewrite keep_flagged_all.
  - intros ->. simpl in Hrun. injection Hrun as <-.
    apply keep_flagged_none.
Qed.

Lemma complete_examples_keep_everything_witness :
  exists flags,
    input_has_examples 2 [PyList [PyInt 1; PyStr "a"]] = inr flags /\
    inputs_with_examples [10%nat; 11%nat] flags = [10%nat; 11%nat].
Proof.
  destruct (complete_examples_keep_everything [10%nat; 11%nat]
              [PyList [PyInt 1; PyStr "a"]])
    as (flags & rows & Hrun & _ & Hkeep & _).
  - intros example He. apply list_elem_of_singleton in He as ->.
    exists [PyInt 1; PyStr "a"]. split; [reflexivity|].
    split; [reflexivity|].
    intros H. repeat (apply elem_of_cons in H as [H|H]; [discriminate H|]).
    by apply elem_of_nil in H.
  - exists flags. split; [exact Hrun|]. apply Hkeep. discriminate.
Defined.

Lemma input_has_examples_lists (n : nat) (samples : list pyval) :
  Forall (fun e => is_Some (py_iter e)) samples ->
  exists flags, input_has_examples n samples = inr flags.
Proof.
  intros Hiter. unfold input_has_examples. generalize (replicate n false).
  induction Hiter as [|e rest [items Hit] _ IH]; intros flags.
  - by eexists.
  - simpl. rewrite Hit. apply IH.
Qed.

(** X21: for a directory that has a log file, the samples are the rows of
    the log after the header, each cut to the number of input components;
    [input_has_examples] is then computed without error, and the flag of
    a component is set exactly when some row after the header has a cell in
    its column. *)
Theorem log_file_examples (fs : FS) (n : nat) (wd p : string) :
  path_exists fs p = true ->
  path_exists fs (path_join fs p LOG_FILE) = true ->
  let rows := csv_rows fs (path_join fs p LOG_FILE) in
  exists samples flags,
    normalize_examples fs n wd (PyStr p) = inr (samples, p) /\
    length samples = (length rows - 1)%nat /\
    (forall i row, rows !! S i = Some row ->
       samples !! i = Some (PyList (map PyStr (take n row)))) /\
    input_has_examples n samples = inr flags /\
    (forall j, flags !! j = Some true
       <-> (j < n)%nat /\
           exists i row, rows !! S i = Some row /\ (j < length row)%nat).
Proof.
  intros Hp Hlog rows. unfold normalize_examples. rewrite Hp, Hlog. simpl.
  fold rows.
  set (samples := map (fun row => PyList (map PyStr (take n row))) (tail rows)).
  assert (Hlookup : forall i row, rows !! S i = Some row ->
            samples !! i = Some (PyList (map PyStr (take n row)))).
  { intros i row Hrow. unfold samples.
    rewrite list_lookup_fmap, lookup_tail, Hrow. done. }
  assert (Hiter : Forall (fun e => is_Some (py_iter e)) samples).
  { apply Forall_forall. intros e He. apply list_elem_of_In in He.
    unfold samples in He. apply list_elem_of_fmap in He as (row & -> & _).
    by eexists. }
  destruct (input_has_examples_lists n samples Hiter) as [flags Hrun].
  exists samples, flags. split; [done|].
  split; [unfold samples; rewrite length_map; destruct rows; simpl; lia|].
  split; [done|]. split; [done|].
  destruct (input_has_examples_spec _ _ _ Hrun) as [_ Hspec].
  intros j. rewrite Hspec. split.
  - intros (Hj & e & items & x & He & Hit & Hx & _). split; [done|].
    unfold samples in He. apply list_elem_of_fmap in He as (row & -> & Hrow).
    simpl in Hit. injection Hit as <-.
    apply list_elem_of_lookup in Hrow as [i Hi].
    rewrite lookup_tail in Hi. exists i, row. split; [done|].
    rewrite list_lookup_fmap in Hx.
    destruct (take n row !! j) as [c|] eqn:Hc; [|done].
    apply lookup_take_Some in Hc as [Hc _]. by eapply lookup_lt_Some.
  - intros (Hj & i & row & Hrow & Hlen). split; [done|].
    destruct (lookup_lt_is_Some_2 row j Hlen) as [c Hc].
    exists (PyList (map PyStr (take n row))), (map PyStr (take n row)),
      (PyStr c).
    split; [by eapply list_elem_of_lookup_2, Hlookup|].
    split; [done|]. split; [|done].
    rewrite list_lookup_fmap, lookup_take_lt by done. by rewrite Hc.
Qed.

Lemma log_file_examples_witness :
  exists samples flags,
    normalize_examples example_fs 2 "." (PyStr "examples")
    = inr (samples, "examples"%string) /\
    length samples = 2%nat /\
    input_has_examples 2 samples = inr flags.
Proof.
  destruct (log_file_examples example_fs 2 "." "examples" eq_refl eq_refl)
    as (samples & flags & Hrun & Hlen & _ & Hflags & _).
  exists samples, flags. split; [exact Hrun|]. split; [exact Hlen|exact Hflags].
Defined.

(** * The order of the calls of a job *)

Lemma gather_event_data_calls (event : eid) (w : World) :
  exists calls,
    trace (after_gather event w) = trace w ++ calls /\
    fetch_calls event calls.
Proof.
  unfold after_gather.
  destruct (truthy (data (objs w event))) eqn:Hd.
  - exists []. rewrite gather_event_data_present by done.
    split; [by rewrite app_nil_r|by left].
  - destruct (next_send (objs w event)) eqn:Hs.
    + destruct (gather_event_data_received event w Hd Hs)
        as (w1 & -> & Ht & _).
      eexists. split; [exact Ht|]. right. right. by eexists.
    + destruct (gather_event_data_dead event w Hd Hs) as (w1 & -> & Ht & _).
      eexists. split; [exact Ht|]. right. by left.
Qed.

Lemma process_event_from_start_calls (event : eid) (w : World) :
  exists calls,
    trace (final (process_event_from_start event w)) = trace w ++ calls /\
    job_calls event calls.
Proof.
  destruct w as [q o t k v].
  unfold process_event_from_start, bind. unfold send_message. world_simpl.
  destruct (next_send (o event)) eqn:Hs; cbn [negb].
  - unfold get_data, time, Request. unfold gets. repeat world_simpl.
    unfold on_cls at 1. world_simpl.
    destruct (update_estimation _ q) as [[] q'|ex q']; repeat world_simpl.
    + destruct (next_send (sent (o event))) eqn:Hd;
        unfold disconnect, ret, on_cls, clean_job; repeat world_simpl;
        try destruct (close_returns (websocket (o event)));
        try destruct (py_index _ _); cbn [final]; world_simpl;
        (eexists; split; [by rewrite <- !app_assoc|]);
        right; right; right; do 5 eexists;
        first [by exists true | by exists false].
    + cbn [final]. world_simpl. eexists.
      split; [by rewrite <- !app_assoc|]. right. right. left.
      by do 5 eexists.
  - unfold on_cls, clean_job. world_simpl.
    destruct (py_index _ _); cbn [final]; world_simpl;
      (eexists; split; [done|]); by left.
Qed.

(** X22: the calls of [process_event], whatever the client, the backend
    and the state of the class: first those of [gather_event_data] (none,
    a failed ["send_data"], or ["send_data"] and one receive), then
    ["process_starts"]; the backend is called only after
    ["process_starts"] was sent, ["process_completed"] is sent only with
    the output of a backend call that returned, and [websocket.close]
    comes only right after a ["process_completed"] that was sent. *)
Theorem process_event_calls (event : eid) (w : World) :
  exists fetch job,
    trace (final (process_event event w)) = trace w ++ fetch ++ job /\
    fetch_calls event fetch /\ job_calls event job.
Proof.
  destruct (gather_event_data_calls event w) as (fetch & Hf & Hfetch).
  destruct (process_event_from_start_calls event (after_gather event w))
    as (job & Hj & Hjob).
  exists fetch, job. rewrite process_event_after_gather.
  split; [|done]. by rewrite Hj, Hf, <- app_assoc.
Qed.

(** X23: every coroutine that [start_processing] starts, run from a
    reachable state of the class on any world, ends (returning or
    raising) in a state in which the occupied slots are within
    [MAX_THREAD_COUNT], no event has two slots and no event is both in a
    slot and pending. *)
Theorem coroutines_keep_invariant (c : coro) (w : World) :
  reachable (cls w) -> dispatcher_invariant (cls (final (run_coro c w))).
Proof.
  intros Hw. apply well_formed_invariant, reachable_well_formed.
  by apply run_coro_reachable.
Qed.

Lemma coroutines_keep_invariant_witness :
  dispatcher_invariant
    (cls (final (run_coro (ProcessEvent 0%nat)
                   (world_of one_admitted gone_websocket answering_env)))).
Proof.
  apply coroutines_keep_invariant. simpl. unfold one_admitted.
  apply reachable_call; [|exact I].
  apply reachable_call; [apply reachable_class|].
  split; vm_compute; [apply not_elem_of_nil|].
  intros H. apply list_elem_of_singleton in H. discriminate H.
Defined.
